(** * hacknovate-commit-tracker: the scheduled worker and the dashboard client

    A shallow embedding of [worker.js] (the script a scheduler runs every five
    minutes) and of the polling logic of the React dashboard, followed by the
    properties of the specification that concern them.

    Conventions of the embedding.
    - JavaScript numbers that the program only ever adds, subtracts and
      compares (commit counts, totals, epoch milliseconds) are integers [Z];
      they stay far below 2^53, where floating-point addition is exact.
    - [undefined] is [None].
    - An object used as a dictionary ([newHistoryEntry.teams], a chart point)
      is a [gmap] keyed by property name; team identifiers are ordinary
      property names.
    - A [Map] keeps its keys in insertion order, which the sorted output
      depends on for ties: it is an association list with the update rules of
      [Map.prototype.set].
    - The outside world (hosting API, clock, file contents, [git], network) is
      an explicit environment of oracles; console output and written files are
      explicit state. Within one run the hosting API is a function of the
      query: a repository listed twice is answered twice the same way.
    - Files hold JSON of the expected shape, or nothing that parses. *)

From stdpp Require Import gmap strings list fin_maps pretty.
From Stdlib Require Import ZArith Lia Permutation Sorted Ascii.

Local Open Scope string_scope.
Local Open Scope list_scope.
Local Open Scope Z_scope.

(** ** Completions and the state-and-exception monad *)

(** What evaluating a statement or awaiting a promise ends with. *)
Inductive Completion (E A : Type) : Type :=
| Normal (a : A)
| Throw (e : E).
Arguments Normal {E A} a.
Arguments Throw {E A} e.

Definition M (S E A : Type) : Type := S → Completion E A * S.

Definition ret {S E A} (a : A) : M S E A := λ s, (Normal a, s).

Definition throw {S E A} (e : E) : M S E A := λ s, (Throw e, s).

Definition bind {S E A B} (c : M S E A) (k : A → M S E B) : M S E B :=
  λ s, match c s with
       | (Normal a, s') => k a s'
       | (Throw e, s') => (Throw e, s')
       end.

(** [try { c } catch (e) { h e }] *)
Definition try_catch {S E A} (c : M S E A) (h : E → M S E A) : M S E A :=
  λ s, match c s with
       | (Normal a, s') => (Normal a, s')
       | (Throw e, s') => h e s'
       end.

(** [try { c } finally { f }], for a [finally] block that completes normally
    or throws (it never returns a value of its own). *)
Definition try_finally {S E A} (c : M S E A) (f : M S E unit) : M S E A :=
  λ s, match c s with
       | (r, s') =>
           match f s' with
           | (Normal _, s'') => (r, s'')
           | (Throw e, s'') => (Throw e, s'')
           end
       end.

Definition modify {S E} (f : S → S) : M S E unit := λ s, (Normal tt, f s).

Definition gets {S E A} (f : S → A) : M S E A := λ s, (Normal (f s), s).

Declare Scope js_scope.
Delimit Scope js_scope with js.
Notation "x <- c ;; k" := (bind c (λ x, k))
  (at level 100, c at next level, right associativity) : js_scope.
Notation "c ;; k" := (bind c (λ _, k))
  (at level 100, right associativity) : js_scope.

(** [for (const x of l) { acc = body acc x }] with the loop-carried variables
    gathered in [acc]; a throwing iteration ends the loop. *)
Fixpoint for_of {S E A St} (l : list A) (body : St → A → M S E St) (acc : St)
  : M S E St :=
  match l with
  | [] => ret acc
  | x :: l' => bind (body acc x) (for_of l' body)
  end.

(** ** The JavaScript built-ins the program uses *)

Module JS.

(** A thrown value: an [Error] with an optional numeric [status]
    (the hosting client sets it on HTTP failures) and a [message]. *)
Record Error : Type := mkError { status : option Z; message : string }.

(** [s.split(sep)] for a one-character separator. *)
Fixpoint split (sep : Ascii.ascii) (s : string) : list string :=
  match s with
  | EmptyString => [EmptyString]
  | String c rest =>
      match split sep rest with
      | [] => [String c EmptyString]
      | hd :: tl =>
          if decide (c = sep) then EmptyString :: hd :: tl
          else String c hd :: tl
      end
  end.

Arguments split sep%_char s%_string.

(** [arr.join(sep)] *)
Fixpoint join (sep : string) (l : list string) : string :=
  match l with
  | [] => ""
  | [x] => x
  | x :: l' => x +:+ sep +:+ join sep l'
  end.

(** A value interpolated in a template literal. *)
Definition show (o : option string) : string := default "undefined" o.

(** [arr.slice(start)]: a negative [start] counts from the end. *)
Definition slice {A} (start : Z) (l : list A) : list A :=
  let len := Z.of_nat (length l) in
  let k := if start <? 0 then Z.max (len + start) 0 else Z.min start len in
  drop (Z.to_nat k) l.

(** [arr.sort(cmp)]: the sort is stable, and for a consistent comparator
    its result is the one stable insertion computes. [cmp a b ≤ 0] keeps
    [a] in front of [b]. *)
Fixpoint sort_insert {A} (cmp : A → A → Z) (x : A) (l : list A) : list A :=
  match l with
  | [] => [x]
  | y :: l' => if cmp x y <=? 0 then x :: y :: l' else y :: sort_insert cmp x l'
  end.

Definition sort {A} (cmp : A → A → Z) (l : list A) : list A :=
  foldr (sort_insert cmp) [] l.

(** *** [Map] with string keys *)
Definition Map (V : Type) : Type := list (string * V).

Fixpoint Map_get {V} (k : string) (m : Map V) : option V :=
  match m with
  | [] => None
  | (k', v) :: m' => if decide (k = k') then Some v else Map_get k m'
  end.

(** An existing key keeps its position; a new key goes last. *)
Fixpoint Map_set {V} (k : string) (v : V) (m : Map V) : Map V :=
  match m with
  | [] => [(k, v)]
  | (k', v') :: m' =>
      if decide (k = k') then (k, v) :: m' else (k', v') :: Map_set k v m'
  end.

(** [new Map(entries)] *)
Definition Map_new {V} (entries : list (string * V)) : Map V :=
  foldl (λ m kv, Map_set kv.1 kv.2 m) [] entries.

(** [Array.from(m.values())] *)
Definition Map_values {V} (m : Map V) : list V := m.*2.

Definition Map_keys {V} (m : Map V) : list string := m.*1.

End JS.

(** ** The data model shared by the worker and the dashboard *)

(** One element of [data/teams.json]. *)
Record Team : Type := mkTeam {
  team_id : string;
  team_name : string;
  team_repos : list string;
  team_color : string;
}.

(** One element of [data/leaderboard.json]. *)
Record LeaderboardEntry : Type := mkEntry {
  entry_id : string;
  entry_name : string;
  total_commits : Z;
  entry_color : string;
}.

(** One element of [data/history.json]; [time_label] is its [time] field. *)
Record HistoryEntry : Type := mkHistoryEntry {
  time_label : string;
  timestamp : Z;
  teams : gmap string Z;
  total : Z;
}.

(** A line written to the console. *)
Inductive LogLine : Type :=
| ConsoleLog (text : string)
| ConsoleError (text : string)
| ConsoleErrorWith (text : string) (e : JS.Error).

(** ** worker.js *)

Module Worker.

(** What is found at a path: nothing, something [JSON.parse] (or the read)
    rejects, or a value. *)
Inductive File (A : Type) : Type :=
| Missing
| Unreadable (e : JS.Error)
| Content (v : A).
Arguments Missing {A}.
Arguments Unreadable {A} e.
Arguments Content {A} v.

(** The working tree and the console: the state a run changes. *)
Record World : Type := mkWorld {
  file_teams : File (list Team);
  file_leaderboard : File (list LeaderboardEntry);
  file_history : File (list HistoryEntry);
  console : list LogLine;
}.

(** What [exec]'s callback receives. *)
Record ExecResult : Type := mkExecResult {
  exec_err : option JS.Error;
  exec_stdout : string;
  exec_stderr : string;
}.

(** What a run reads from outside and cannot change: the clock, the date
    formatting of the platform, the hosting API and the shell. *)
Record Env : Type := mkEnv {
  Date_now : Z;
  Date_at_publish : Z;
  toISOString : Z → string;
  toLocaleTimeString : Z → string;
  listCommits :
    option string → option string → string → string →
    Completion JS.Error (list string);
  exec : string → ExecResult;
}.

Definition Task (A : Type) : Type := M World JS.Error A.

Definition TEAMS_FILE : string := "data/teams.json".
Definition LEADERBOARD_FILE : string := "data/leaderboard.json".
Definition HISTORY_FILE : string := "data/history.json".

Definition console_emit (l : LogLine) : Task unit :=
  modify (λ w, mkWorld (file_teams w) (file_leaderboard w) (file_history w)
                 (console w ++ [l])).

Definition write_leaderboard (v : list LeaderboardEntry) : Task unit :=
  modify (λ w, mkWorld (file_teams w) (Content v) (file_history w) (console w)).

Definition write_history (v : list HistoryEntry) : Task unit :=
  modify (λ w, mkWorld (file_teams w) (file_leaderboard w) (Content v) (console w)).

(** [readJson(filePath, defaultValue)]; [file] selects the typed content
    kept at [filePath]. *)
Definition readJson {A} (filePath : string) (file : World → File A)
    (defaultValue : A) : Task A :=
  (f <- gets file ;;
   match f with
   | Content v => ret v
   | Unreadable e =>
       console_emit (ConsoleErrorWith ("Error reading " +:+ filePath +:+ ":") e) ;;
       ret defaultValue
   | Missing => ret defaultValue
   end)%js.

(** The double-quote character of the shell command line. *)
Definition dq : string := String (ascii_of_nat 34) EmptyString.

(** [error.status || 'API'] *)
Definition status_or_API (st : option Z) : string :=
  match st with
  | Some z => if z =? 0 then "API" else pretty z
  | None => "API"
  end.

(** Lines 38-51: the shell command line of the versioned publish. *)
Definition commands (env : Env) : string :=
  let commitMessage :=
    "Automated data update: " +:+ toISOString env (Date_at_publish env) in
  let gitUser := "github-actions[bot]" in
  let gitEmail := "41898282+github-actions[bot]@users.noreply.github.com" in
  JS.join " && "
    [ "git config --global user.email " +:+ dq +:+ gitEmail +:+ dq;
      "git config --global user.name " +:+ dq +:+ gitUser +:+ dq;
      "git add " +:+ LEADERBOARD_FILE +:+ " " +:+ HISTORY_FILE;
      "git commit -m " +:+ dq +:+ commitMessage +:+ dq +:+ " --allow-empty";
      "git push" ].

Definition commitFiles (env : Env) (newLeaderboard : list LeaderboardEntry)
    (newHistory : list HistoryEntry) : Task string :=
  (write_leaderboard newLeaderboard ;;
   write_history newHistory ;;
   console_emit (ConsoleLog "Committing updated files...") ;;
   let r := exec env (commands env) in
   match exec_err r with
   | Some err =>
       console_emit (ConsoleError ("Commit Error: " +:+ JS.message err)) ;;
       console_emit (ConsoleError (exec_stderr r)) ;;
       throw (JS.mkError None ("Failed to commit: " +:+ JS.message err))
   | None =>
       console_emit (ConsoleLog (exec_stdout r)) ;;
       ret (exec_stdout r)
   end)%js.

Definition getCommitsInWindow (env : Env) (repoOwner repoName : option string)
    (sinceTime untilTime : string) : Task Z :=
  try_catch
    (match listCommits env repoOwner repoName sinceTime untilTime with
     | Normal data => ret (Z.of_nat (length data))
     | Throw error => throw error
     end)
    (λ error,
       (console_emit
          (ConsoleError
             ("Repo Error (" +:+ JS.show repoOwner +:+ "/" +:+ JS.show repoName
              +:+ "): " +:+ status_or_API (JS.status error) +:+ " "
              +:+ JS.message error)) ;;
        ret 0)%js).

(** Lines 112-116: the commits of all repositories of one team. *)
Definition teamWindowCommits (env : Env) (sinceTime untilTime : string)
    (repos : list string) : Task Z :=
  for_of repos
    (λ teamWindowCommits repoPath,
       let parts := JS.split "/" repoPath in
       let rOwner := parts !! 0%nat in
       let rName := parts !! 1%nat in
       (count <- getCommitsInWindow env rOwner rName sinceTime untilTime ;;
        ret (teamWindowCommits + count))%js)
    0.

(** Lines 121-132: fold one team's window count into the leaderboard map and
    into the new history entry. *)
Definition mergeTeam (team : Team) (teamWindowCommits : Z)
    (st : JS.Map LeaderboardEntry * HistoryEntry)
  : JS.Map LeaderboardEntry * HistoryEntry :=
  let '(leaderboardMap, newHistoryEntry) := st in
  let leaderboardEntry :=
    default
      (mkEntry (team_id team) (team_name team) 0 (team_color team))
      (JS.Map_get (team_id team) leaderboardMap) in
  let leaderboardEntry :=
    mkEntry (entry_id leaderboardEntry) (entry_name leaderboardEntry)
      (total_commits leaderboardEntry + teamWindowCommits)
      (entry_color leaderboardEntry) in
  (JS.Map_set (team_id team) leaderboardEntry leaderboardMap,
   mkHistoryEntry (time_label newHistoryEntry) (timestamp newHistoryEntry)
     (<[team_id team := teamWindowCommits]> (teams newHistoryEntry))
     (total newHistoryEntry + teamWindowCommits)).

Definition by_total_desc (a b : LeaderboardEntry) : Z :=
  total_commits b - total_commits a.

Definition runTracker (env : Env) : Task unit :=
  (console_emit (ConsoleLog "Starting 5-minute commit check...") ;;
   let now := Date_now env in
   let fiveMinutesAgo := now - 5 * 60000 in
   let sinceTime := toISOString env fiveMinutesAgo in
   let untilTime := toISOString env now in
   teamsConfig <- readJson TEAMS_FILE file_teams [] ;;
   currentLeaderboard <- readJson LEADERBOARD_FILE file_leaderboard [] ;;
   history <- readJson HISTORY_FILE file_history [] ;;
   let newHistoryEntry :=
     mkHistoryEntry (toLocaleTimeString env now) now ∅ 0 in
   let leaderboardMap :=
     JS.Map_new ((λ t, (entry_id t, t)) <$> currentLeaderboard) in
   st <- for_of teamsConfig
           (λ st team,
              teamWindowCommits <-
                teamWindowCommits env sinceTime untilTime (team_repos team) ;;
              ret (mergeTeam team teamWindowCommits st))
           (leaderboardMap, newHistoryEntry) ;;
   let '(leaderboardMap, newHistoryEntry) := st in
   let newLeaderboard := JS.sort by_total_desc (JS.Map_values leaderboardMap) in
   let history := (history ++ [newHistoryEntry]) in
   let history := JS.slice (-50) history in
   commitFiles env newLeaderboard history ;;
   console_emit
     (ConsoleLog ("Commit fetching complete. Total window commits: "
                  +:+ pretty (total newHistoryEntry))))%js.

(** The last statement of the script: a rejected run logs and exits with 1;
    otherwise the process ends with status 0. *)
Definition main (env : Env) (w : World) : Z * World :=
  match runTracker env w with
  | (Normal _, w') => (0, w')
  | (Throw _, w') =>
      (1, (console_emit
             (ConsoleError "Tracker failed to complete successfully.") w').2)
  end.

End Worker.

(** ** The dashboard (LiveCommitDashboard.jsx): configuration and polling *)

Module Dashboard.

Definition RAW_URL_BASE : string :=
  "https://raw.githubusercontent.com/MethodistCollege/hacknovate-commit-tracker/main/".

(** The module-level constants of lines 10-11. They are evaluated once, when
    the script is loaded; [t_leaderboard] and [t_history] are what the two
    calls of [Date.now()] return at that moment. *)
Record Config : Type := mkConfig {
  LEADERBOARD_URL : string;
  HISTORY_URL : string;
}.

Definition load (t_leaderboard t_history : Z) : Config :=
  {| LEADERBOARD_URL :=
       RAW_URL_BASE +:+ "data/leaderboard.json?cache=" +:+ pretty t_leaderboard;
     HISTORY_URL :=
       RAW_URL_BASE +:+ "data/history.json?cache=" +:+ pretty t_history |}.

(** A property value of a chart point. *)
Inductive Cell : Type :=
| Str (s : string)
| Num (n : Z).

(** The four [useState] cells of [App]. *)
Record AppState : Type := mkAppState {
  leaderboard : list LeaderboardEntry;
  historyData : list (gmap string Cell);
  loading : bool;
  lastUpdate : option string;
}.

(** The page: component state, console, and the URLs requested so far. *)
Record Browser : Type := mkBrowser {
  app : AppState;
  console : list LogLine;
  requests : list string;
}.

(** What one fetch cycle meets outside: the network, seen at the type of the
    artifact the caller asks for (the outer completion is [fetch]'s, the
    inner one is [response.json()]'s), and the clock. *)
Record Net : Type := mkNet {
  fetch_leaderboard :
    string → Completion JS.Error (Completion JS.Error (list LeaderboardEntry));
  fetch_history :
    string → Completion JS.Error (Completion JS.Error (list HistoryEntry));
  clock : Z;
  toLocaleTimeString : Z → string;
}.

Definition Job (A : Type) : Type := M Browser JS.Error A.

Definition initial : Browser :=
  mkBrowser (mkAppState [] [] true None) [] [].

Definition set_app (f : AppState → AppState) : Job unit :=
  modify (λ b, mkBrowser (f (app b)) (console b) (requests b)).

Definition setLeaderboard (v : list LeaderboardEntry) : Job unit :=
  set_app (λ a, mkAppState v (historyData a) (loading a) (lastUpdate a)).

Definition setHistoryData (v : list (gmap string Cell)) : Job unit :=
  set_app (λ a, mkAppState (leaderboard a) v (loading a) (lastUpdate a)).

Definition setLoading (v : bool) : Job unit :=
  set_app (λ a, mkAppState (leaderboard a) (historyData a) v (lastUpdate a)).

Definition setLastUpdate (v : string) : Job unit :=
  set_app (λ a, mkAppState (leaderboard a) (historyData a) (loading a) (Some v)).

Definition console_emit (l : LogLine) : Job unit :=
  modify (λ b, mkBrowser (app b) (console b ++ [l]) (requests b)).

(** [await fetch(url)]: the request is issued, then settles. *)
Definition fetch {A} (oracle : string → Completion JS.Error A) (url : string)
  : Job A :=
  (modify (λ b, mkBrowser (app b) (console b) (requests b ++ [url])) ;;
   match oracle url with
   | Normal response => ret response
   | Throw e => throw e
   end)%js.

(** [await response.json()] *)
Definition json {A} (response : Completion JS.Error A) : Job A :=
  match response with
  | Normal v => ret v
  | Throw e => throw e
  end.

(** Lines 52-59: one history entry as a flat chart point. *)
Definition transform (entry : HistoryEntry) : gmap string Cell :=
  let base : gmap string Cell :=
    <["total" := Num (total entry)]> (<["time" := Str (time_label entry)]> ∅) in
  foldl (λ base kv, <[kv.1 := Num kv.2]> base) base (map_to_list (teams entry)).

Definition fetchData (cfg : Config) (net : Net) : Job unit :=
  (setLoading true ;;
   try_finally
     (try_catch
        (leaderboardResponse <- fetch (fetch_leaderboard net) (LEADERBOARD_URL cfg) ;;
         newLeaderboard <- json leaderboardResponse ;;
         setLeaderboard newLeaderboard ;;
         historyResponse <- fetch (fetch_history net) (HISTORY_URL cfg) ;;
         rawHistory <- json historyResponse ;;
         let transformedHistory := transform <$> rawHistory in
         setHistoryData transformedHistory ;;
         setLastUpdate (toLocaleTimeString net (clock net)))
        (λ error, console_emit (ConsoleErrorWith "Error fetching data:" error)))
     (setLoading false))%js.

(** Lines 71-76: [fetchData] runs once when the component mounts and then on
    every tick of the 30-second timer. [cycles] lists what each of these
    invocations meets, the initial load first. *)
Definition poll (cfg : Config) (b : Browser) (net : Net) : Browser :=
  (fetchData cfg net b).2.

Definition session (cfg : Config) (cycles : list Net) : Browser :=
  foldl (poll cfg) initial cycles.

(** One line of the chart and of its legend. *)
Record LegendItem : Type := mkLegendItem {
  legend_id : string;
  legend_name : string;
  legend_color : string;
}.

(** Lines 30-36: the legend derived from the displayed leaderboard;
    [team.color || '#4c51bf'] replaces an empty colour. *)
Definition teamConfigs (leaderboard : list LeaderboardEntry) : list LegendItem :=
  (λ team,
     mkLegendItem (entry_id team) (entry_name team)
       (if decide (entry_color team = "") then "#4c51bf" else entry_color team))
    <$> leaderboard.

(** Line 78: [leaderboard.reduce((sum, team) => sum + team.total_commits, 0)]. *)
Definition totalHackathonCommits (leaderboard : list LeaderboardEntry) : Z :=
  foldl (λ sum team, sum + total_commits team) 0 leaderboard.

End Dashboard.

(** ** Notions the properties are stated with *)

Import Worker.

Definition sumZ (l : list Z) : Z := foldr Z.add 0 l.

(** What [readJson(path, [])] yields for a file. *)
Definition contents {A} (f : File (list A)) : list A :=
  match f with
  | Content v => v
  | _ => []
  end.

Definition config_of (w : World) : list Team := contents (file_teams w).
Definition leaderboard_of (w : World) : list LeaderboardEntry :=
  contents (file_leaderboard w).
Definition history_of (w : World) : list HistoryEntry :=
  contents (file_history w).

Definition sinceTime (env : Env) : string :=
  toISOString env (Date_now env - 5 * 60000).
Definition untilTime (env : Env) : string := toISOString env (Date_now env).

(** The outcome of the commit-listing query a run issues for [repoPath]. *)
Definition query (env : Env) (repoPath : string)
  : Completion JS.Error (list string) :=
  let parts := JS.split "/" repoPath in
  listCommits env (parts !! 0%nat) (parts !! 1%nat) (sinceTime env) (untilTime env).

(** The value of the Commit Counter for [repoPath] in the window of [env]. *)
Definition commitCount (env : Env) (repoPath : string) : Z :=
  match query env repoPath with
  | Normal data => Z.of_nat (length data)
  | Throw _ => 0
  end.

(** A team's window count: the sum over its repositories. *)
Definition windowCommits (env : Env) (team : Team) : Z :=
  sumZ (commitCount env <$> team_repos team).

(** The window count of an identifier: the sum over the configured teams
    that carry it (one team, when identifiers are unique; none, when the
    identifier is not configured). *)
Definition windowCount (env : Env) (cfg : list Team) (T : string) : Z :=
  sumZ (windowCommits env <$> filter (λ t, team_id t = T) cfg).

Definition ids (lb : list LeaderboardEntry) : list string := entry_id <$> lb.

(** The cumulative total an identifier has in a leaderboard, 0 when it has
    no entry. *)
Fixpoint totalOf (T : string) (lb : list LeaderboardEntry) : Z :=
  match lb with
  | [] => 0
  | e :: lb' => if decide (entry_id e = T) then total_commits e else totalOf T lb'
  end.

(** Two worlds with the same three files. *)
Definition same_files (w w' : World) : Prop :=
  file_teams w = file_teams w' ∧
  file_leaderboard w = file_leaderboard w' ∧
  file_history w = file_history w'.

(** The loop of line 108 from an arbitrary intermediate state. *)
Definition mergeAll (env : Env) (cfg : list Team)
    (st : JS.Map LeaderboardEntry * HistoryEntry)
  : JS.Map LeaderboardEntry * HistoryEntry :=
  foldl (λ st team, mergeTeam team (windowCommits env team) st) st cfg.

(** The in-memory result of lines 98-133: the loop run from the map of the
    current leaderboard and the empty entry of this run. *)
Definition merged (env : Env) (cfg : list Team) (lb : list LeaderboardEntry)
  : JS.Map LeaderboardEntry * HistoryEntry :=
  mergeAll env cfg
    (JS.Map_new ((λ t, (entry_id t, t)) <$> lb),
     mkHistoryEntry (toLocaleTimeString env (Date_now env)) (Date_now env) ∅ 0).

Definition newLeaderboard (env : Env) (w : World) : list LeaderboardEntry :=
  JS.sort by_total_desc
    (JS.Map_values (merged env (config_of w) (leaderboard_of w)).1).

Definition newHistoryEntry (env : Env) (w : World) : HistoryEntry :=
  (merged env (config_of w) (leaderboard_of w)).2.

Definition newHistory (env : Env) (w : World) : list HistoryEntry :=
  JS.slice (-50) (history_of w ++ [newHistoryEntry env w]).

(** One scheduled run: the configuration is whatever the file holds at that
    moment, the artifacts are those the previous run left. *)
Record Run : Type := mkRun {
  run_env : Env;
  run_config : File (list Team);
}.

(** The world a run starts in: the artifacts of [w] with the configuration
    of the run. *)
Definition configured (r : Run) (w : World) : World :=
  mkWorld (run_config r) (file_leaderboard w) (file_history w) (console w).

Definition step (w : World) (r : Run) : World :=
  (main (run_env r) (configured r w)).2.

(** The window count an identifier gets in a run. *)
Definition countIn (T : string) (r : Run) : Z :=
  windowCount (run_env r) (contents (run_config r)) T.

Definition runs (rs : list Run) (w : World) : World := foldl step w rs.

(** A team without one of its repositories. *)
Definition strip_repo (repoPath : string) (t : Team) : Team :=
  mkTeam (team_id t) (team_name t)
    (filter (λ r, r ≠ repoPath) (team_repos t)) (team_color t).

(** A repository removed from every team of a configuration file. *)
Definition without_repo (repoPath : string) (f : File (list Team))
  : File (list Team) :=
  match f with
  | Content cfg => Content (strip_repo repoPath <$> cfg)
  | other => other
  end.

(** The line [getCommitsInWindow] logs for a failed query. *)
Definition repo_error_line (repoOwner repoName : option string)
    (error : JS.Error) : LogLine :=
  ConsoleError
    ("Repo Error (" +:+ JS.show repoOwner +:+ "/" +:+ JS.show repoName
     +:+ "): " +:+ status_or_API (JS.status error) +:+ " "
     +:+ JS.message error).

(** An entry with [c] more commits: the effect of line 127. *)
Definition bump (e : LeaderboardEntry) (c : Z) : LeaderboardEntry :=
  mkEntry (entry_id e) (entry_name e) (total_commits e + c) (entry_color e).

(** The entry line 121 creates for a team met for the first time, once its
    count [c] is added. *)
Definition freshEntry (team : Team) (c : Z) : LeaderboardEntry :=
  mkEntry (team_id team) (team_name team) c (team_color team).

(** Every value of the map sits under its own identifier. *)
Definition keyed (m : JS.Map LeaderboardEntry) : Prop :=
  ∀ k e, (k, e) ∈ m → entry_id e = k.

(** The same environment with another shell. *)
Definition with_exec (sh : string → ExecResult) (env : Env) : Env :=
  mkEnv (Date_now env) (Date_at_publish env) (toISOString env)
    (toLocaleTimeString env) (listCommits env) sh.

(** ** A concrete setting: two teams, one reachable repository *)

Definition sample_listCommits (owner repo : option string) (since until : string)
  : Completion JS.Error (list string) :=
  if decide (owner = Some "o" ∧ repo = Some "r1")
  then Normal ["c1"; "c2"; "c3"]
  else Throw (JS.mkError (Some 404) "Not Found").

Definition push_ok (command : string) : ExecResult := mkExecResult None "pushed" "".

Definition push_rejected (command : string) : ExecResult :=
  mkExecResult (Some (JS.mkError (Some 1) "Command failed")) "" "rejected".

Definition sample_env : Env :=
  mkEnv 1700000000000 1700000000250 (λ t, pretty t) (λ _, "10:15 AM")
    sample_listCommits push_ok.

Definition sample_config : list Team :=
  [mkTeam "a" "Team A" ["o/r1"] "#ff0000"; mkTeam "b" "Team B" ["o/r2"] "#0000ff"].

Definition sample_world : World := mkWorld (Content sample_config) Missing Missing [].

Definition sample_entry (n : Z) : HistoryEntry :=
  mkHistoryEntry "09:00 AM" n ∅ 0.

(** A history that already holds 50 entries, stamped 0 to 49. *)
Definition full_history : list HistoryEntry :=
  sample_entry <$> (Z.of_nat <$> seq 0 50).

Definition full_world : World :=
  mkWorld (Content sample_config) Missing (Content full_history) [].

(** Three runs: both teams, then team "b" alone under another name, then
    both again. *)
Definition sample_runs : list Run :=
  [ mkRun sample_env (Content sample_config);
    mkRun sample_env (Content [mkTeam "b" "Renamed" ["o/r1"; "o/r1"] "#00ff00"]);
    mkRun sample_env (Content sample_config) ].

(** A leaderboard left by earlier runs, with a team that is no longer
    configured and a team whose configured name and colour have changed. *)
Definition old_world : World :=
  mkWorld (Content sample_config)
    (Content [mkEntry "z" "Team Z" 7 "#00ff00"; mkEntry "a" "Old name" 2 "#111111"])
    Missing [].

(** ** Notions for the dashboard *)

(** What a fetch cycle gets for each artifact: the value, or the error of
    the fetch or of the parse. *)
Definition leaderboard_result (cfg : Dashboard.Config) (net : Dashboard.Net)
  : Completion JS.Error (list LeaderboardEntry) :=
  match Dashboard.fetch_leaderboard net (Dashboard.LEADERBOARD_URL cfg) with
  | Normal response => response
  | Throw e => Throw e
  end.

Definition history_result (cfg : Dashboard.Config) (net : Dashboard.Net)
  : Completion JS.Error (list HistoryEntry) :=
  match Dashboard.fetch_history net (Dashboard.HISTORY_URL cfg) with
  | Normal response => response
  | Throw e => Throw e
  end.

(** The error of a cycle in which fetching or parsing an artifact fails:
    the first one the cycle meets. *)
Definition cycle_failure (cfg : Dashboard.Config) (net : Dashboard.Net)
  : option JS.Error :=
  match leaderboard_result cfg net with
  | Throw e => Some e
  | Normal _ =>
      match history_result cfg net with
      | Throw e => Some e
      | Normal _ => None
      end
  end.

(** The displayed snapshot is what it was before the cycle. *)
Definition snapshot_retained (cfg : Dashboard.Config) (net : Dashboard.Net)
    (b : Dashboard.Browser) : Prop :=
  Dashboard.leaderboard (Dashboard.app (Dashboard.poll cfg b net))
  = Dashboard.leaderboard (Dashboard.app b) ∧
  Dashboard.historyData (Dashboard.app (Dashboard.poll cfg b net))
  = Dashboard.historyData (Dashboard.app b).

(** The URLs one fetch cycle requests. *)
Definition cycle_requests (cfg : Dashboard.Config) (net : Dashboard.Net)
  : list string :=
  match leaderboard_result cfg net with
  | Normal _ => [Dashboard.LEADERBOARD_URL cfg; Dashboard.HISTORY_URL cfg]
  | Throw _ => [Dashboard.LEADERBOARD_URL cfg]
  end.

(** A page showing one team with 3 commits, and a cycle, at clock [t], in
    which the leaderboard arrives with 8 commits and the history does not
    arrive. *)
Definition shown : Dashboard.Browser :=
  Dashboard.mkBrowser
    (Dashboard.mkAppState [mkEntry "a" "Team A" 3 "#ff0000"] [] false
       (Some "10:15:00 AM"))
    [] [].

Definition history_down (t : Z) : Dashboard.Net :=
  Dashboard.mkNet
    (λ _, Normal (Normal [mkEntry "a" "Team A" 8 "#ff0000"]))
    (λ _, Throw (JS.mkError None "Failed to fetch"))
    t (λ _, "10:15:30 AM").

(** A cycle, at clock [t], in which both artifacts arrive. *)
Definition online (t : Z) : Dashboard.Net :=
  Dashboard.mkNet
    (λ _, Normal (Normal [mkEntry "a" "Team A" 8 "#ff0000"]))
    (λ _, Normal (Normal [mkHistoryEntry "10:15 AM" t {["a" := 5]} 5]))
    t (λ _, "10:15:30 AM").

(** ** Further notions *)

(** The teams of a configuration that open a new entry, in the order the
    loop meets them: the first team of each identifier not in [seen]. *)
Fixpoint firstTeams (seen : list string) (cfg : list Team) : list Team :=
  match cfg with
  | [] => []
  | t :: cfg' =>
      if decide (team_id t ∈ seen) then firstTeams seen cfg'
      else t :: firstTeams (seen ++ [team_id t]) cfg'
  end.

(** The entry of one run, as its configuration and environment decide it. *)
Definition entryOf (r : Run) : HistoryEntry :=
  newHistoryEntry (run_env r) (configured r (mkWorld Missing Missing Missing [])).


(** The number a chart cell holds, if it holds one. *)
Definition cell_number (c : Dashboard.Cell) : option Z :=
  match c with
  | Dashboard.Num n => Some n
  | Dashboard.Str _ => None
  end.






(** A world whose artifacts do not parse, and a leaderboard with a tie. *)
Definition garbled_world : World :=
  mkWorld (Content sample_config)
    (Unreadable (JS.mkError None "Unexpected token"))
    (Unreadable (JS.mkError None "Unexpected end of JSON input")) [].

Definition ranked_world : World :=
  mkWorld (Content [mkTeam "b" "Team B" ["o/r2"] "#0000ff"])
    (Content [mkEntry "a" "Team A" 5 "#ff0000"; mkEntry "b" "Team B" 5 "";
              mkEntry "c" "Team C" 1 "#00ff00"])
    Missing [].

(** * Properties *)

(** ** The built-ins on small inputs *)

Example split_owner_name : JS.split "/" "octo/repo" = ["octo"; "repo"].
Proof. reflexivity. Qed.

Example split_no_slash : JS.split "/" "repo" = ["repo"].
Proof. reflexivity. Qed.

Example slice_last_two : JS.slice (-2) [1; 2; 3] = [2; 3].
Proof. reflexivity. Qed.

Example sort_is_stable :
  JS.sort (λ a b : Z * string, b.1 - a.1) [(1, "x"); (3, "y"); (1, "z"); (3, "w")]
  = [(3, "y"); (3, "w"); (1, "x"); (1, "z")].
Proof. reflexivity. Qed.

(** ** The run, step by step *)

Lemma same_files_refl w : same_files w w.
Proof. by repeat split. Qed.

Lemma same_files_trans w1 w2 w3 :
  same_files w1 w2 → same_files w2 w3 → same_files w1 w3.
Proof. unfold same_files. intros (?&?&?) (?&?&?). repeat split; congruence. Qed.

Lemma console_emit_run l w :
  ∃ w', Worker.console_emit l w = (Normal (), w') ∧ same_files w w'.
Proof. eexists. split; [reflexivity|]. by repeat split. Qed.

Lemma readJson_run {A} path (file : World → File (list A)) w :
  ∃ w', readJson path file [] w = (Normal (contents (file w)), w')
        ∧ same_files w w'.
Proof.
  unfold readJson, bind, gets. destruct (file w) as [|e|v]; simpl.
  - eexists. split; [reflexivity|apply same_files_refl].
  - eexists. split; [reflexivity|]. by repeat split.
  - eexists. split; [reflexivity|apply same_files_refl].
Qed.

Lemma getCommitsInWindow_run env repoPath w :
  ∃ w', getCommitsInWindow env (JS.split "/" repoPath !! 0%nat)
          (JS.split "/" repoPath !! 1%nat) (sinceTime env) (untilTime env) w
        = (Normal (commitCount env repoPath), w')
        ∧ same_files w w'.
Proof.
  unfold getCommitsInWindow, try_catch, commitCount, query.
  destruct (listCommits env _ _ _ _) as [data|error]; simpl.
  - eexists. split; [reflexivity|apply same_files_refl].
  - eexists. split; [reflexivity|]. by repeat split.
Qed.

Lemma teamWindowCommits_loop env repos : ∀ acc w,
  ∃ w', for_of repos
          (λ teamWindowCommits repoPath,
             bind (getCommitsInWindow env (JS.split "/" repoPath !! 0%nat)
                     (JS.split "/" repoPath !! 1%nat) (sinceTime env) (untilTime env))
               (λ count, ret (teamWindowCommits + count))) acc w
        = (Normal (acc + sumZ (commitCount env <$> repos)), w')
        ∧ same_files w w'.
Proof.
  induction repos as [|r repos IH]; intros acc w; simpl.
  - exists w. rewrite Z.add_0_r. split; [reflexivity|apply same_files_refl].
  - destruct (getCommitsInWindow_run env r w) as (w1 & E1 & S1).
    unfold bind at 1. unfold bind at 1. rewrite E1. unfold ret at 1.
    destruct (IH (acc + commitCount env r) w1) as (w2 & E2 & S2).
    exists w2. split; [|eapply same_files_trans; eauto].
    rewrite E2. do 2 f_equal. symmetry. apply Z.add_assoc.
Qed.

Lemma teamWindowCommits_run env team w :
  ∃ w', teamWindowCommits env (sinceTime env) (untilTime env) (team_repos team) w
        = (Normal (windowCommits env team), w')
        ∧ same_files w w'.
Proof.
  destruct (teamWindowCommits_loop env (team_repos team) 0 w) as (w' & E & S).
  exists w'. split; [|done]. unfold teamWindowCommits. by rewrite E.
Qed.

Lemma teams_loop env cfg : ∀ st w,
  ∃ w', for_of cfg
          (λ st team,
             bind (teamWindowCommits env (sinceTime env) (untilTime env)
                     (team_repos team))
               (λ c, ret (mergeTeam team c st))) st w
        = (Normal (foldl (λ st team, mergeTeam team (windowCommits env team) st)
                     st cfg), w')
        ∧ same_files w w'.
Proof.
  induction cfg as [|t cfg IH]; intros st w; simpl.
  - exists w. split; [reflexivity|apply same_files_refl].
  - destruct (teamWindowCommits_run env t w) as (w1 & E1 & S1).
    unfold bind at 1. unfold bind at 1. rewrite E1. unfold ret at 1.
    destruct (IH (mergeTeam t (windowCommits env t) st) w1) as (w2 & E2 & S2).
    exists w2. rewrite E2. split; [done|]. eapply same_files_trans; eauto.
Qed.

(** The whole script: the exit status is decided by the publish step alone,
    and the two artifacts are written in either case. *)
Lemma main_run env w :
  ∃ lines,
    main env w =
      (match exec_err (exec env (commands env)) with Some _ => 1 | None => 0 end,
       mkWorld (file_teams w) (Content (newLeaderboard env w))
         (Content (newHistory env w)) lines).
Proof.
  unfold main, runTracker.
  destruct (console_emit_run (ConsoleLog "Starting 5-minute commit check...") w)
    as (w0 & E0 & S0).
  unfold bind at 1. rewrite E0.
  destruct (readJson_run TEAMS_FILE file_teams w0) as (w1 & E1 & S1).
  unfold bind at 1. rewrite E1.
  destruct (readJson_run LEADERBOARD_FILE file_leaderboard w1) as (w2 & E2 & S2).
  unfold bind at 1. rewrite E2.
  destruct (readJson_run HISTORY_FILE file_history w2) as (w3 & E3 & S3).
  unfold bind at 1. rewrite E3.
  pose proof (same_files_trans _ _ _ S0 S1) as S01.
  pose proof (same_files_trans _ _ _ S01 S2) as S02.
  pose proof (same_files_trans _ _ _ S02 S3) as S03.
  destruct S0 as (T0 & _ & _), S01 as (_ & L1 & _), S02 as (_ & _ & H2).
  destruct
    (teams_loop env (contents (file_teams w0))
       (JS.Map_new ((λ t, (entry_id t, t)) <$> (contents (file_leaderboard w1))),
        mkHistoryEntry (toLocaleTimeString env (Date_now env)) (Date_now env) ∅ 0)
       w3) as (w4 & E4 & S4).
  unfold sinceTime, untilTime in E4.
  unfold bind at 1. rewrite E4.
  pose proof (same_files_trans _ _ _ S03 S4) as (T4 & _ & _).
  unfold newLeaderboard, newHistory, newHistoryEntry, merged, mergeAll,
    config_of, leaderboard_of, history_of.
  rewrite T0, L1, H2.
  destruct (foldl _ _ _) as [leaderboardMap entry].
  unfold commitFiles, bind, write_leaderboard, write_history,
    Worker.console_emit, modify, throw, ret; simpl.
  destruct (exec_err (exec env (commands env))) as [err|]; simpl;
    rewrite <- T4, T0; eexists; reflexivity.
Qed.

(** ** [Array.prototype.sort] and [Array.prototype.slice] *)

Section Sorting.
Context {A : Type} (cmp : A → A → Z).

Lemma sort_insert_perm x l : JS.sort_insert cmp x l ≡ₚ x :: l.
Proof.
  induction l as [|y l IH]; simpl; [done|].
  destruct (cmp x y <=? 0); [done|].
  rewrite IH. apply perm_swap.
Qed.

Lemma sort_perm l : JS.sort cmp l ≡ₚ l.
Proof.
  induction l as [|x l IH]; simpl; [done|].
  fold (JS.sort cmp l). by rewrite sort_insert_perm, IH.
Qed.

Lemma elem_of_sort x l : x ∈ JS.sort cmp l ↔ x ∈ l.
Proof. by rewrite sort_perm. Qed.

(** A comparator is consistent when "not after" is total and transitive. *)
Hypothesis cmp_total : ∀ x y, 0 < cmp x y → cmp y x ≤ 0.
Hypothesis cmp_trans : ∀ x y z, cmp x y ≤ 0 → cmp y z ≤ 0 → cmp x z ≤ 0.

Lemma sort_insert_sorted x l :
  StronglySorted (λ a b, cmp a b ≤ 0) l →
  StronglySorted (λ a b, cmp a b ≤ 0) (JS.sort_insert cmp x l).
Proof.
  induction 1 as [|y l Hl IH Hy]; simpl.
  - repeat constructor.
  - destruct (Z.leb_spec (cmp x y) 0) as [Hxy|Hxy].
    + constructor; [by constructor|].
      constructor; [done|].
      eapply Forall_impl; [exact Hy|]. intros z Hz. by eapply cmp_trans.
    + constructor; [done|].
      rewrite sort_insert_perm. constructor; [by apply cmp_total|done].
Qed.

Lemma sort_sorted l : StronglySorted (λ a b, cmp a b ≤ 0) (JS.sort cmp l).
Proof.
  induction l as [|x l IH]; simpl; [constructor|].
  by apply sort_insert_sorted.
Qed.

End Sorting.

Lemma slice_last_50 {A} (l : list A) :
  JS.slice (-50) l = drop (length l - 50) l.
Proof. unfold JS.slice. simpl. f_equal. lia. Qed.

Lemma slice_last_50_length {A} (l : list A) :
  (length (JS.slice (-50) l) ≤ 50)%nat.
Proof. rewrite slice_last_50, length_drop. lia. Qed.

Lemma slice_last_50_push {A} (l : list A) (x : A) :
  last (JS.slice (-50) (l ++ [x])) = Some x.
Proof.
  rewrite slice_last_50, length_app. simpl.
  rewrite drop_app_le by lia. apply last_snoc.
Qed.

(** ** [Map]: lookups, keys and insertion order *)

Section MapFacts.
Context {V : Type}.
Implicit Types (m : JS.Map V) (k : string) (v : V).

Lemma Map_get_set_eq k v m : JS.Map_get k (JS.Map_set k v m) = Some v.
Proof.
  induction m as [|[k' v'] m IH]; csimpl.
  - by rewrite decide_True.
  - destruct (decide (k = k')) as [->|Hne]; csimpl.
    + by rewrite decide_True.
    + by rewrite decide_False.
Qed.

Lemma Map_get_set_ne k k' v m :
  k ≠ k' → JS.Map_get k' (JS.Map_set k v m) = JS.Map_get k' m.
Proof.
  intros Hne. induction m as [|[k0 v0] m IH]; csimpl.
  - by rewrite decide_False.
  - destruct (decide (k = k0)) as [->|Hne0]; csimpl.
    + by rewrite !decide_False.
    + by rewrite IH.
Qed.

Lemma Map_keys_set k v m :
  JS.Map_keys (JS.Map_set k v m)
  = if decide (k ∈ JS.Map_keys m) then JS.Map_keys m else (JS.Map_keys m ++ [k]).
Proof.
  unfold JS.Map_keys. induction m as [|[k' v'] m IH]; csimpl.
  - done.
  - destruct (decide (k = k')) as [->|Hne]; csimpl.
    + rewrite decide_True; [done|]. apply list_elem_of_here.
    + rewrite IH. destruct (decide (k ∈ m.*1)) as [Hin|Hout].
      * rewrite decide_True; [done|]. by apply list_elem_of_further.
      * rewrite decide_False; [done|].
        rewrite elem_of_cons. intros [?|?]; done.
Qed.

Lemma Map_keys_set_NoDup k v m :
  NoDup (JS.Map_keys m) → NoDup (JS.Map_keys (JS.Map_set k v m)).
Proof.
  intros Hm. rewrite Map_keys_set. case_decide; [done|].
  apply NoDup_app. split_and!; [done| |apply NoDup_singleton].
  intros x Hx. rewrite list_elem_of_singleton. by intros ->.
Qed.

Lemma Map_get_Some k v m :
  NoDup (JS.Map_keys m) → JS.Map_get k m = Some v ↔ (k, v) ∈ m.
Proof.
  unfold JS.Map_keys. induction m as [|[k' v'] m IH]; csimpl; intros Hm.
  - split; [done|]. by intros ?%elem_of_nil.
  - apply NoDup_cons in Hm as [Hk' Hm].
    rewrite elem_of_cons.
    destruct (decide (k = k')) as [->|Hne].
    + split; [intros [= ->]; by left|].
      intros [[= ->]|Hin]; [done|].
      destruct Hk'. apply list_elem_of_fmap. by exists (k', v).
    + rewrite (IH Hm). split; [by right|]. intros [[= -> ->]|Hin]; done.
Qed.

Lemma Map_get_None k m : JS.Map_get k m = None ↔ k ∉ JS.Map_keys m.
Proof.
  unfold JS.Map_keys. induction m as [|[k' v'] m IH]; csimpl.
  - split; [intros _; apply not_elem_of_nil|done].
  - rewrite not_elem_of_cons. destruct (decide (k = k')) as [->|Hne].
    + split; [done|]. by intros [? _].
    + rewrite IH. tauto.
Qed.

Lemma Map_new_acc (entries : list (string * V)) : ∀ m,
  NoDup (JS.Map_keys m) →
  NoDup (JS.Map_keys (foldl (λ m kv, JS.Map_set kv.1 kv.2 m) m entries)).
Proof.
  induction entries as [|[k v] entries IH]; intros m Hm; csimpl; [done|].
  apply IH. by apply Map_keys_set_NoDup.
Qed.

Lemma Map_new_NoDup (entries : list (string * V)) :
  NoDup (JS.Map_keys (JS.Map_new entries)).
Proof. apply Map_new_acc. constructor. Qed.

Lemma Map_set_fresh k v m :
  k ∉ JS.Map_keys m → JS.Map_set k v m = (m ++ [(k, v)]).
Proof.
  unfold JS.Map_keys. induction m as [|[k' v'] m IH]; csimpl; [done|].
  rewrite not_elem_of_cons. intros [Hne Hout].
  rewrite decide_False by done. by rewrite IH.
Qed.

(** Entries with distinct keys are kept as they are, in their order. *)
Lemma Map_new_distinct (entries : list (string * V)) :
  NoDup entries.*1 → JS.Map_new entries = entries.
Proof.
  unfold JS.Map_new.
  enough (∀ m, NoDup (m ++ entries).*1 →
            foldl (λ m kv, JS.Map_set kv.1 kv.2 m) m entries = (m ++ entries))
    as Hgen by (intros; by apply (Hgen [])).
  induction entries as [|[k v] entries IH]; intros m Hm; csimpl.
  - by rewrite app_nil_r.
  - rewrite Map_set_fresh.
    + rewrite IH; rewrite <- app_assoc; done.
    + rewrite fmap_app in Hm. apply NoDup_app in Hm as (_ & Hdisj & _).
      intros Hin. apply (Hdisj _ Hin). csimpl. apply list_elem_of_here.
Qed.

End MapFacts.

(** ** Window counts *)

Lemma sumZ_cons x l : sumZ (x :: l) = x + sumZ l.
Proof. reflexivity. Qed.

Lemma sumZ_nonneg l : Forall (λ x, 0 ≤ x) l → 0 ≤ sumZ l.
Proof. induction 1; simpl; lia. Qed.

Lemma commitCount_nonneg env repoPath : 0 ≤ commitCount env repoPath.
Proof. unfold commitCount. destruct (query env repoPath); lia. Qed.

Lemma windowCommits_nonneg env team : 0 ≤ windowCommits env team.
Proof.
  apply sumZ_nonneg, Forall_fmap, Forall_forall. intros r _.
  apply commitCount_nonneg.
Qed.

Lemma windowCount_nonneg env cfg T : 0 ≤ windowCount env cfg T.
Proof.
  apply sumZ_nonneg, Forall_fmap, Forall_forall. intros t _.
  apply windowCommits_nonneg.
Qed.

Lemma windowCount_cons env t cfg T :
  windowCount env (t :: cfg) T
  = (if decide (team_id t = T) then windowCommits env t else 0)
    + windowCount env cfg T.
Proof.
  unfold windowCount. rewrite filter_cons.
  destruct (decide (team_id t = T)); simpl; done.
Qed.

Lemma windowCount_absent env cfg T :
  T ∉ team_id <$> cfg → windowCount env cfg T = 0.
Proof.
  induction cfg as [|t cfg IH]; csimpl; [done|].
  rewrite not_elem_of_cons. intros [Hne Hout].
  rewrite windowCount_cons, decide_False by done. by rewrite IH.
Qed.

(** With unique identifiers, the window count of a configured team's
    identifier is that team's own count. *)
Lemma windowCount_unique env cfg t :
  NoDup (team_id <$> cfg) → t ∈ cfg →
  windowCount env cfg (team_id t) = windowCommits env t.
Proof.
  induction cfg as [|t' cfg IH]; csimpl; intros Hnd Hin.
  - by apply elem_of_nil in Hin.
  - apply NoDup_cons in Hnd as [Hout Hnd].
    rewrite windowCount_cons. apply elem_of_cons in Hin as [->|Hin].
    + rewrite decide_True, windowCount_absent by done. lia.
    + rewrite decide_False, IH by (try done; intros Heq; apply Hout;
        rewrite Heq; by apply list_elem_of_fmap_2). lia.
Qed.

(** ** The merge loop *)

Lemma bump_bump e c1 c2 : bump (bump e c1) c2 = bump e (c1 + c2).
Proof. unfold bump; simpl. f_equal. lia. Qed.

Lemma bump_0 e : bump e 0 = e.
Proof. destruct e. unfold bump; simpl. f_equal. lia. Qed.

Lemma mergeTeam_map team c m h :
  (mergeTeam team c (m, h)).1
  = JS.Map_set (team_id team)
      (bump (default (freshEntry team 0) (JS.Map_get (team_id team) m)) c) m.
Proof. reflexivity. Qed.

Lemma mergeAll_cons env t cfg m h :
  mergeAll env (t :: cfg) (m, h)
  = mergeAll env cfg (mergeTeam t (windowCommits env t) (m, h)).
Proof. reflexivity. Qed.

(** What the loop leaves under each key. *)
Lemma mergeAll_get env cfg : ∀ m h T,
  JS.Map_get T (mergeAll env cfg (m, h)).1
  = match JS.Map_get T m with
    | Some e => Some (bump e (windowCount env cfg T))
    | None =>
        (λ t, freshEntry t (windowCount env cfg T))
          <$> head (filter (λ t, team_id t = T) cfg)
    end.
Proof.
  induction cfg as [|t cfg IH]; intros m h T.
  - simpl. destruct (JS.Map_get T m) as [e|]; [|done].
    unfold windowCount; simpl. by rewrite bump_0.
  - rewrite mergeAll_cons.
    destruct (mergeTeam t (windowCommits env t) (m, h)) as [m1 h1] eqn:E.
    pose proof (mergeTeam_map t (windowCommits env t) m h) as Hm1.
    rewrite E in Hm1; simpl in Hm1. subst m1.
    rewrite IH, windowCount_cons, filter_cons.
    destruct (decide (team_id t = T)) as [<-|Hne].
    + rewrite Map_get_set_eq, bump_bump.
      destruct (JS.Map_get (team_id t) m) as [e|]; simpl; [done|].
      unfold bump, freshEntry; simpl. do 2 f_equal.
    + rewrite Map_get_set_ne by done.
      by rewrite Z.add_0_l.
Qed.

Lemma elem_of_Map_set {V} (x : string * V) k v (m : JS.Map V) :
  x ∈ JS.Map_set k v m → x = (k, v) ∨ x ∈ m.
Proof.
  induction m as [|[k' v'] m IH]; simpl.
  - rewrite list_elem_of_singleton. by left.
  - destruct (decide (k = k')) as [->|Hne]; rewrite !elem_of_cons.
    + intros [->|Hin]; [by left|by right; right].
    + intros [->|Hin]; [by right; left|].
      destruct (IH Hin) as [->|Hin']; [by left|by right; right].
Qed.

Lemma keyed_set k e m : keyed m → entry_id e = k → keyed (JS.Map_set k e m).
Proof.
  intros Hm He k' e' [[= -> ->]|Hin]%elem_of_Map_set; [done|by apply Hm].
Qed.

Lemma keyed_get k e m : keyed m → JS.Map_get k m = Some e → entry_id e = k.
Proof.
  intros Hm. induction m as [|[k' e'] m IH]; simpl; [done|].
  destruct (decide (k = k')) as [->|Hne].
  - intros [= ->]. apply Hm, list_elem_of_here.
  - apply IH. intros k0 e0 Hin. by apply Hm, list_elem_of_further.
Qed.

Lemma keyed_new lb : keyed (JS.Map_new ((λ t, (entry_id t, t)) <$> lb)).
Proof.
  unfold JS.Map_new.
  enough (∀ m, keyed m →
            keyed (foldl (λ m kv, JS.Map_set kv.1 kv.2 m) m
                     ((λ t, (entry_id t, t)) <$> lb))) as Hgen.
  { apply Hgen. by intros k e ?%elem_of_nil. }
  induction lb as [|e lb IH]; intros m Hm; simpl; [done|].
  apply IH. by apply keyed_set.
Qed.

Lemma keyed_ids m : keyed m → ids (JS.Map_values m) = JS.Map_keys m.
Proof.
  unfold ids, JS.Map_values, JS.Map_keys.
  induction m as [|[k e] m IH]; intros Hm; csimpl; [done|].
  rewrite IH by (intros k0 e0 Hin; by apply Hm, list_elem_of_further).
  f_equal. apply Hm, list_elem_of_here.
Qed.

Lemma mergeTeam_keyed team c m h :
  keyed m → keyed (mergeTeam team c (m, h)).1.
Proof.
  intros Hm. rewrite mergeTeam_map. apply keyed_set; [done|].
  destruct (JS.Map_get (team_id team) m) as [e|] eqn:E; simpl; [|done].
  by eapply keyed_get.
Qed.

Lemma mergeAll_keyed env cfg : ∀ m h,
  keyed m → keyed (mergeAll env cfg (m, h)).1.
Proof.
  induction cfg as [|t cfg IH]; intros m h Hm; [done|].
  rewrite mergeAll_cons.
  destruct (mergeTeam t (windowCommits env t) (m, h)) as [m1 h1] eqn:E.
  apply IH. pose proof (mergeTeam_keyed t (windowCommits env t) m h Hm) as H1.
  by rewrite E in H1.
Qed.

Lemma mergeAll_NoDup env cfg : ∀ m h,
  NoDup (JS.Map_keys m) → NoDup (JS.Map_keys (mergeAll env cfg (m, h)).1).
Proof.
  induction cfg as [|t cfg IH]; intros m h Hm; [done|].
  rewrite mergeAll_cons.
  destruct (mergeTeam t (windowCommits env t) (m, h)) as [m1 h1] eqn:E.
  apply IH. pose proof (mergeTeam_map t (windowCommits env t) m h) as H1.
  rewrite E in H1; simpl in H1. subst m1. by apply Map_keys_set_NoDup.
Qed.

(** The new history entry: label and timestamp stay, every team adds its
    count to [total] and writes it under its identifier in [teams]. *)
Lemma mergeAll_history env cfg : ∀ m h,
  let h' := (mergeAll env cfg (m, h)).2 in
  time_label h' = time_label h ∧ timestamp h' = timestamp h ∧
  total h' = total h + sumZ (windowCommits env <$> cfg) ∧
  ∀ T, teams h' !! T
       = match last (filter (λ t, team_id t = T) cfg) with
         | Some t => Some (windowCommits env t)
         | None => teams h !! T
         end.
Proof.
  induction cfg as [|t cfg IH]; intros m h; [simpl; repeat split; lia|].
  rewrite mergeAll_cons.
  destruct (mergeTeam t (windowCommits env t) (m, h)) as [m1 h1] eqn:E.
  assert (h1 = mkHistoryEntry (time_label h) (timestamp h)
                 (<[team_id t := windowCommits env t]> (teams h))
                 (total h + windowCommits env t)) as -> by (by injection E).
  destruct (IH m1 (mkHistoryEntry (time_label h) (timestamp h)
                     (<[team_id t := windowCommits env t]> (teams h))
                     (total h + windowCommits env t))) as (H1 & H2 & H3 & H4).
  simpl in *. repeat split; [done|done|rewrite H3; symmetry; apply Z.add_assoc|].
  intros T. rewrite H4, filter_cons.
  destruct (decide (team_id t = T)) as [<-|Hne].
  - destruct (filter _ cfg) as [|t' l] eqn:F.
    + simpl. by rewrite lookup_insert_eq.
    + rewrite last_cons_cons. destruct (last (t' :: l)) eqn:L; [done|].
      by apply last_None in L.
  - destruct (last _); [done|]. by rewrite lookup_insert_ne.
Qed.

(** ** The leaderboard a run writes *)

Lemma merged_unfold env cfg lb :
  merged env cfg lb
  = mergeAll env cfg
      (JS.Map_new ((λ t, (entry_id t, t)) <$> lb),
       mkHistoryEntry (toLocaleTimeString env (Date_now env)) (Date_now env) ∅ 0).
Proof. reflexivity. Qed.

Lemma merged_keyed env cfg lb : keyed (merged env cfg lb).1.
Proof. rewrite merged_unfold. apply mergeAll_keyed, keyed_new. Qed.

Lemma merged_NoDup env cfg lb : NoDup (JS.Map_keys (merged env cfg lb).1).
Proof. rewrite merged_unfold. apply mergeAll_NoDup, Map_new_NoDup. Qed.

(** An entry is in the written leaderboard exactly when the map holds it
    under its identifier. *)
Lemma newLeaderboard_elem env w e :
  e ∈ newLeaderboard env w
  ↔ JS.Map_get (entry_id e) (merged env (config_of w) (leaderboard_of w)).1
    = Some e.
Proof.
  unfold newLeaderboard. rewrite elem_of_sort. unfold JS.Map_values.
  rewrite (Map_get_Some _ _ _ (merged_NoDup _ _ _)), list_elem_of_fmap.
  split.
  - intros ([k e'] & -> & Hin). simpl.
    by rewrite (merged_keyed _ _ _ _ _ Hin).
  - intros Hin. by exists (entry_id e, e).
Qed.

(** Identifiers in the written leaderboard are pairwise distinct, whatever
    the run started from. *)
Lemma newLeaderboard_NoDup env w : NoDup (ids (newLeaderboard env w)).
Proof.
  unfold newLeaderboard, ids. rewrite sort_perm.
  fold (ids (JS.Map_values (merged env (config_of w) (leaderboard_of w)).1)).
  rewrite keyed_ids by apply merged_keyed. apply merged_NoDup.
Qed.

Lemma initial_keys lb : ((λ t, (entry_id t, t)) <$> lb).*1 = ids lb.
Proof. unfold ids. rewrite <- list_fmap_compose. done. Qed.

Lemma initial_get lb T e :
  NoDup (ids lb) →
  JS.Map_get T (JS.Map_new ((λ t, (entry_id t, t)) <$> lb)) = Some e
  ↔ e ∈ lb ∧ entry_id e = T.
Proof.
  intros Hnd. rewrite Map_new_distinct by (by rewrite initial_keys).
  rewrite Map_get_Some by (unfold JS.Map_keys; by rewrite initial_keys).
  rewrite list_elem_of_fmap. split.
  - intros (e' & [= -> ->] & Hin). done.
  - intros [Hin <-]. by exists e.
Qed.

Lemma totalOf_absent T lb : T ∉ ids lb → totalOf T lb = 0.
Proof.
  induction lb as [|e lb IH]; csimpl; [done|].
  rewrite not_elem_of_cons. intros [Hne Hout].
  rewrite decide_False by done. by apply IH.
Qed.

Lemma totalOf_elem e lb :
  NoDup (ids lb) → e ∈ lb → totalOf (entry_id e) lb = total_commits e.
Proof.
  induction lb as [|e' lb IH]; csimpl; intros Hnd Hin.
  - by apply elem_of_nil in Hin.
  - apply NoDup_cons in Hnd as [Hout Hnd].
    apply elem_of_cons in Hin as [->|Hin]; [by rewrite decide_True|].
    rewrite decide_False; [by apply IH|].
    intros Heq. apply Hout. rewrite Heq. by apply list_elem_of_fmap_2.
Qed.

(** A leaderboard with distinct identifiers read through a lookup function. *)
Lemma totalOf_lookup lb (g : string → option LeaderboardEntry) T :
  NoDup (ids lb) →
  (∀ e, e ∈ lb ↔ g (entry_id e) = Some e) →
  (∀ k e, g k = Some e → entry_id e = k) →
  totalOf T lb = from_option total_commits 0 (g T).
Proof.
  intros Hnd Hg Hkey. destruct (g T) as [e|] eqn:E; simpl.
  - pose proof (Hkey _ _ E) as <-. apply totalOf_elem; [done|]. by apply Hg.
  - apply totalOf_absent. intros (e & -> & Hin)%list_elem_of_fmap.
    apply Hg in Hin. congruence.
Qed.

Lemma totalOf_initial lb T :
  NoDup (ids lb) →
  totalOf T lb
  = from_option total_commits 0
      (JS.Map_get T (JS.Map_new ((λ t, (entry_id t, t)) <$> lb))).
Proof.
  intros Hnd.
  apply (totalOf_lookup lb
           (λ k, JS.Map_get k (JS.Map_new ((λ t, (entry_id t, t)) <$> lb))));
    [done| |].
  - intros e. rewrite initial_get by done. tauto.
  - intros k e. rewrite initial_get by done. tauto.
Qed.

(** One run adds the window count of every identifier to its total. *)
Lemma newLeaderboard_totalOf env w T :
  NoDup (ids (leaderboard_of w)) →
  totalOf T (newLeaderboard env w)
  = totalOf T (leaderboard_of w) + windowCount env (config_of w) T.
Proof.
  intros Hnd.
  rewrite (totalOf_lookup (newLeaderboard env w)
             (λ k, JS.Map_get k (merged env (config_of w) (leaderboard_of w)).1));
    [|apply newLeaderboard_NoDup|apply newLeaderboard_elem
     |intros k e; apply keyed_get, merged_keyed].
  rewrite (totalOf_initial _ _ Hnd), merged_unfold, mergeAll_get.
  destruct (JS.Map_get T _) as [e|]; simpl; [done|].
  unfold windowCount.
  destruct (filter _ (config_of w)) as [|t l]; simpl; done.
Qed.

(** ** What a run leaves behind *)

Lemma main_status env w :
  (main env w).1
  = match exec_err (exec env (commands env)) with Some _ => 1 | None => 0 end.
Proof. destruct (main_run env w) as [lines ->]. done. Qed.

Lemma main_leaderboard env w :
  file_leaderboard (main env w).2 = Content (newLeaderboard env w).
Proof. destruct (main_run env w) as [lines ->]. done. Qed.

Lemma main_history env w :
  file_history (main env w).2 = Content (newHistory env w).
Proof. destruct (main_run env w) as [lines ->]. done. Qed.

(** ** Properties of the history *)

(** C2. After every run the history holds at most 50 entries: it is the last
    50 entries of the old history followed by the entry of this run. When
    the old history already holds 50 entries, the result again holds 50: the
    old entries 1 to 49 in their order, the oldest one dropped, and the new
    entry last, at index 49. *)
Theorem history_keeps_last_50 env w :
  let old := history_of w in
  let new := history_of (main env w).2 in
  (length new ≤ 50)%nat ∧
  new = drop (length old + 1 - 50) (old ++ [newHistoryEntry env w]) ∧
  (length old = 50%nat →
     length new = 50%nat ∧
     new = drop 1 old ++ [newHistoryEntry env w] ∧
     new !! 49%nat = Some (newHistoryEntry env w) ∧
     ∀ i, (i < 49)%nat → new !! i = old !! S i).
Proof.
  intros old new.
  assert (new = JS.slice (-50) (old ++ [newHistoryEntry env w])) as Hnew.
  { subst new old. unfold history_of at 1. by rewrite main_history. }
  clearbody new. subst new. split_and!.
  - apply slice_last_50_length.
  - rewrite slice_last_50, length_app. done.
  - intros Hlen. rewrite slice_last_50, length_app, Hlen. simpl.
    rewrite drop_app_le by lia.
    assert (length (drop 1 old) = 49%nat) as Hd by (rewrite length_drop; lia).
    split_and!.
    + rewrite length_app, Hd. done.
    + done.
    + rewrite lookup_app_r by lia. by rewrite Hd.
    + intros i Hi. rewrite lookup_app_l by lia. by rewrite lookup_drop.
Qed.

Lemma history_keeps_last_50_witness :
  length (history_of full_world) = 50%nat ∧
  length (history_of (main sample_env full_world).2) = 50%nat ∧
  timestamp <$> history_of (main sample_env full_world).2 !! 0%nat = Some 1 ∧
  timestamp <$> history_of (main sample_env full_world).2 !! 49%nat
  = Some 1700000000000.
Proof.
  destruct (history_keeps_last_50 sample_env full_world) as (_ & _ & H).
  destruct (H eq_refl) as (Hlen & _ & Hlast & Hshift).
  split; [reflexivity|]. split; [exact Hlen|].
  split; [rewrite (Hshift 0%nat) by lia; reflexivity|].
  rewrite Hlast. reflexivity.
Defined.

(** ** Properties of the leaderboard order *)

Lemma StronglySorted_weaken {A} (R R' : A → A → Prop) l :
  (∀ a b, R a b → R' a b) → StronglySorted R l → StronglySorted R' l.
Proof.
  intros HR. induction 1 as [|x l Hs IH Hx]; constructor; [done|].
  eapply Forall_impl; [exact Hx|]. intros y. apply HR.
Qed.

Lemma by_total_desc_total a b : 0 < by_total_desc a b → by_total_desc b a ≤ 0.
Proof. unfold by_total_desc. lia. Qed.

Lemma by_total_desc_trans a b c :
  by_total_desc a b ≤ 0 → by_total_desc b c ≤ 0 → by_total_desc a c ≤ 0.
Proof. unfold by_total_desc. lia. Qed.

Lemma newLeaderboard_sorted env w :
  StronglySorted (λ a b, total_commits b ≤ total_commits a)
    (newLeaderboard env w).
Proof.
  unfold newLeaderboard.
  eapply StronglySorted_weaken;
    [|apply (sort_sorted by_total_desc by_total_desc_total by_total_desc_trans)].
  intros a b. unfold by_total_desc. lia.
Qed.

(** C4. The leaderboard every run writes is sorted descending by
    [total_commits]: each entry's total is at least the total of every entry
    that comes after it, so a higher total never follows a lower one. *)
Theorem leaderboard_sorted_descending env w :
  StronglySorted (λ a b, total_commits b ≤ total_commits a)
    (leaderboard_of (main env w).2).
Proof.
  unfold leaderboard_of. rewrite main_leaderboard. apply newLeaderboard_sorted.
Qed.

(** The same, read by positions. *)
Corollary leaderboard_order_by_index env w i j a b :
  (i < j)%nat →
  leaderboard_of (main env w).2 !! i = Some a →
  leaderboard_of (main env w).2 !! j = Some b →
  total_commits b ≤ total_commits a.
Proof.
  unfold leaderboard_of. rewrite main_leaderboard. simpl.
  intros Hij Ha Hb.
  pose proof (newLeaderboard_sorted env w) as Hs.
  revert i j Hij Ha Hb.
  induction Hs as [|x l Hs IH Hx]; intros i j Hij Ha Hb; [done|].
  destruct j as [|j]; [lia|]. simpl in Hb.
  destruct i as [|i]; simpl in Ha.
  - injection Ha as ->. rewrite Forall_forall in Hx.
    apply Hx. by eapply list_elem_of_lookup_2.
  - eapply (IH i j); [lia|done|done].
Qed.

(** ** The publish step *)

(** C7. When the versioned publish fails (the shell reports an error for the
    command line of [commitFiles]), the script exits with status 1, and the
    two files hold the new leaderboard and the new history all the same:
    exactly what the run writes when the publish succeeds. *)
Theorem publish_failure_exits_1_keeps_files env w err :
  exec_err (exec env (commands env)) = Some err →
  (main env w).1 = 1 ∧
  file_leaderboard (main env w).2 = Content (newLeaderboard env w) ∧
  file_history (main env w).2 = Content (newHistory env w) ∧
  ∀ sh, exec_err (sh (commands env)) = None →
    (main (with_exec sh env) w).1 = 0 ∧
    file_leaderboard (main (with_exec sh env) w).2
    = file_leaderboard (main env w).2 ∧
    file_history (main (with_exec sh env) w).2 = file_history (main env w).2.
Proof.
  intros Herr. rewrite main_status, Herr, main_leaderboard, main_history.
  split_and!; [done..|].
  intros sh Hok. rewrite main_status, main_leaderboard, main_history.
  change (commands (with_exec sh env)) with (commands env).
  change (exec (with_exec sh env)) with sh. rewrite Hok.
  split_and!; done.
Qed.

Lemma publish_failure_witness :
  (main (with_exec push_rejected sample_env) sample_world).1 = 1 ∧
  file_leaderboard (main (with_exec push_rejected sample_env) sample_world).2
  = Content [mkEntry "a" "Team A" 3 "#ff0000"; mkEntry "b" "Team B" 0 "#0000ff"].
Proof.
  destruct (publish_failure_exits_1_keeps_files
              (with_exec push_rejected sample_env) sample_world
              (JS.mkError (Some 1) "Command failed") eq_refl)
    as (Hexit & Hlb & _).
  split; [exact Hexit|]. rewrite Hlb. reflexivity.
Defined.

(** ** Properties of the cumulative totals *)

Lemma leaderboard_after env w :
  leaderboard_of (main env w).2 = newLeaderboard env w.
Proof. unfold leaderboard_of at 1. by rewrite main_leaderboard. Qed.

Lemma step_leaderboard w r :
  leaderboard_of (step w r) = newLeaderboard (run_env r) (configured r w).
Proof. apply leaderboard_after. Qed.

Lemma step_NoDup w r : NoDup (ids (leaderboard_of (step w r))).
Proof. rewrite step_leaderboard. apply newLeaderboard_NoDup. Qed.

Lemma step_totalOf w r T :
  NoDup (ids (leaderboard_of w)) →
  totalOf T (leaderboard_of (step w r)) = totalOf T (leaderboard_of w) + countIn T r.
Proof.
  intros Hnd. rewrite step_leaderboard.
  by rewrite (newLeaderboard_totalOf (run_env r) (configured r w) T).
Qed.

Lemma runs_NoDup rs : ∀ w,
  NoDup (ids (leaderboard_of w)) → NoDup (ids (leaderboard_of (runs rs w))).
Proof.
  induction rs as [|r rs IH]; intros w Hnd; [done|].
  apply IH, step_NoDup.
Qed.

Lemma runs_totalOf rs T : ∀ w,
  NoDup (ids (leaderboard_of w)) →
  totalOf T (leaderboard_of (runs rs w))
  = totalOf T (leaderboard_of w) + sumZ (countIn T <$> rs).
Proof.
  induction rs as [|r rs IH]; intros w Hnd.
  - change (runs [] w) with w. rewrite fmap_nil. unfold sumZ; simpl. lia.
  - change (runs (r :: rs) w) with (runs rs (step w r)).
    rewrite IH by apply step_NoDup.
    rewrite step_totalOf, fmap_cons, sumZ_cons by done. lia.
Qed.

(** The identifiers of the written leaderboard: those it had and those
    configured. *)
Lemma newLeaderboard_ids env w T :
  NoDup (ids (leaderboard_of w)) →
  T ∈ ids (newLeaderboard env w)
  ↔ T ∈ ids (leaderboard_of w) ∨ T ∈ team_id <$> config_of w.
Proof.
  intros Hnd. unfold ids at 1. rewrite list_elem_of_fmap.
  setoid_rewrite newLeaderboard_elem.
  assert ((∃ e, T = entry_id e ∧
                JS.Map_get (entry_id e)
                  (merged env (config_of w) (leaderboard_of w)).1 = Some e)
          ↔ is_Some (JS.Map_get T (merged env (config_of w) (leaderboard_of w)).1))
    as ->.
  { split.
    - intros (e & -> & He). by exists e.
    - intros [e He]. exists e.
      pose proof (keyed_get _ _ _ (merged_keyed _ _ _) He) as Hid.
      by rewrite Hid. }
  rewrite merged_unfold, mergeAll_get.
  destruct (JS.Map_get T _) as [e|] eqn:E.
  - apply initial_get in E as [Hin <-]; [|done].
    split; [|by eexists]. intros _. left. by apply list_elem_of_fmap_2.
  - assert (T ∉ ids (leaderboard_of w)) as Hout.
    { intros (e & -> & Hin)%list_elem_of_fmap.
      assert (JS.Map_get (entry_id e)
                (JS.Map_new ((λ t, (entry_id t, t)) <$> leaderboard_of w))
              = Some e) as E' by (by apply initial_get).
      congruence. }
    destruct (filter _ (config_of w)) as [|t l] eqn:F; simpl.
    + split; [by intros [? ?]|]. intros [Hin|Hin]; [done|].
      apply list_elem_of_fmap in Hin as (t & -> & Hin).
      assert (t ∈ filter (λ t', team_id t' = team_id t) (config_of w)) as Hf
        by (by apply list_elem_of_filter).
      rewrite F in Hf. by apply elem_of_nil in Hf.
    + split; [|by eexists]. intros _. right.
      assert (t ∈ filter (λ t', team_id t' = T) (config_of w)) as Hf
        by (rewrite F; apply list_elem_of_here).
      apply list_elem_of_filter in Hf as [<- Hin]. by apply list_elem_of_fmap_2.
Qed.

Lemma runs_ids rs T : ∀ w,
  NoDup (ids (leaderboard_of w)) →
  T ∈ ids (leaderboard_of w)
  ∨ Exists (λ r, T ∈ team_id <$> contents (run_config r)) rs →
  T ∈ ids (leaderboard_of (runs rs w)).
Proof.
  induction rs as [|r rs IH]; intros w Hnd H.
  - destruct H as [H|H]; [done|]. by apply Exists_nil in H.
  - change (runs (r :: rs) w) with (runs rs (step w r)).
    apply IH; [apply step_NoDup|].
    destruct H as [H|H].
    + left. rewrite step_leaderboard. apply newLeaderboard_ids; [done|by left].
    + apply Exists_cons in H as [H|H]; [|by right].
      left. rewrite step_leaderboard. apply newLeaderboard_ids; [done|by right].
Qed.

(** C1. Start from any leaderboard with one entry per identifier (the empty
    one of a first run included). After the runs [rs], the entry of an
    identifier [T] has as [total_commits] what [T] had at the start (0 when
    it had no entry) plus the sum of [T]'s window counts over all the runs;
    an identifier configured in some run does have an entry; and one more
    run never lowers the total. The window count of [T] in a run is the
    window count of the team configured under [T] (identifiers being
    unique), and 0 in a run that does not configure [T]. *)
Theorem total_is_sum_of_window_counts (rs : list Run) (w : World) (T : string) :
  NoDup (ids (leaderboard_of w)) →
  let after := leaderboard_of (runs rs w) in
  (∀ e, e ∈ after → entry_id e = T →
     total_commits e = totalOf T (leaderboard_of w) + sumZ (countIn T <$> rs)) ∧
  (T ∉ ids (leaderboard_of w) → totalOf T (leaderboard_of w) = 0) ∧
  (Exists (λ r, T ∈ team_id <$> contents (run_config r)) rs → T ∈ ids after) ∧
  (∀ r, totalOf T after ≤ totalOf T (leaderboard_of (runs (rs ++ [r]) w))) ∧
  (∀ r team, NoDup (team_id <$> contents (run_config r)) →
     team ∈ contents (run_config r) → team_id team = T →
     countIn T r = windowCommits (run_env r) team) ∧
  (∀ r, T ∉ team_id <$> contents (run_config r) → countIn T r = 0).
Proof.
  intros Hnd after. subst after. split_and!;
    [| | | |intros r team Hcfg Hin <-; by apply windowCount_unique
     |intros r; apply windowCount_absent].
  - intros e Hin <-. rewrite <- runs_totalOf by done.
    symmetry. apply totalOf_elem; [by apply runs_NoDup|done].
  - apply totalOf_absent.
  - intros H. apply runs_ids; [done|by right].
  - intros r. unfold runs at 2. rewrite foldl_app. simpl. fold (runs rs w).
    rewrite step_totalOf by (by apply runs_NoDup).
    pose proof (windowCount_nonneg (run_env r) (contents (run_config r)) T).
    unfold countIn. lia.
Qed.

Lemma total_is_sum_of_window_counts_witness :
  NoDup (ids (leaderboard_of sample_world)) ∧
  countIn "b" <$> sample_runs = [0; 6; 0] ∧
  mkEntry "b" "Team B" 6 "#0000ff" ∈ leaderboard_of (runs sample_runs sample_world) ∧
  total_commits (mkEntry "b" "Team B" 6 "#0000ff")
  = totalOf "b" (leaderboard_of sample_world) + sumZ (countIn "b" <$> sample_runs).
Proof.
  assert (NoDup (ids (leaderboard_of sample_world))) as Hnd by constructor.
  assert (mkEntry "b" "Team B" 6 "#0000ff"
            ∈ leaderboard_of (runs sample_runs sample_world)) as Hin.
  { vm_compute. apply list_elem_of_here. }
  split; [exact Hnd|]. split; [reflexivity|]. split; [exact Hin|].
  exact (proj1 (total_is_sum_of_window_counts sample_runs sample_world "b" Hnd)
           _ Hin eq_refl).
Defined.

(** ** Entries the leaderboard already had *)

(** An entry of the old leaderboard comes out with its window count added,
    and it is the only entry under its identifier. *)
Lemma existing_entry_after env w e :
  NoDup (ids (leaderboard_of w)) → e ∈ leaderboard_of w →
  bump e (windowCount env (config_of w) (entry_id e)) ∈ newLeaderboard env w ∧
  ∀ e', e' ∈ newLeaderboard env w → entry_id e' = entry_id e →
        e' = bump e (windowCount env (config_of w) (entry_id e)).
Proof.
  intros Hnd Hin.
  assert (JS.Map_get (entry_id e) (merged env (config_of w) (leaderboard_of w)).1
          = Some (bump e (windowCount env (config_of w) (entry_id e)))) as Hget.
  { rewrite merged_unfold, mergeAll_get.
    assert (JS.Map_get (entry_id e)
              (JS.Map_new ((λ t, (entry_id t, t)) <$> leaderboard_of w))
            = Some e) as -> by (by apply initial_get).
    done. }
  split.
  - by apply newLeaderboard_elem.
  - intros e' He' Hid. apply newLeaderboard_elem in He'.
    rewrite Hid in He'. congruence.
Qed.

(** C6. In a leaderboard with one entry per identifier, an entry whose
    identifier is not in the configuration of the run is in the written
    leaderboard with all four fields as they were; and every entry, configured
    or not, still has an entry under its identifier with the same name and
    colour: a run deletes none. *)
Theorem unconfigured_entry_retained env w e :
  NoDup (ids (leaderboard_of w)) → e ∈ leaderboard_of w →
  (entry_id e ∉ team_id <$> config_of w → e ∈ leaderboard_of (main env w).2) ∧
  ∃ e', e' ∈ leaderboard_of (main env w).2 ∧
        entry_id e' = entry_id e ∧ entry_name e' = entry_name e ∧
        entry_color e' = entry_color e.
Proof.
  intros Hnd Hin. rewrite leaderboard_after.
  destruct (existing_entry_after env w e Hnd Hin) as [Hafter _]. split.
  - intros Hout. by rewrite windowCount_absent, bump_0 in Hafter.
  - eexists. split; [exact Hafter|]. done.
Qed.

Lemma unconfigured_entry_retained_witness :
  NoDup (ids (leaderboard_of old_world)) ∧
  mkEntry "z" "Team Z" 7 "#00ff00" ∈ leaderboard_of old_world ∧
  ("z" ∉ team_id <$> config_of old_world) ∧
  mkEntry "z" "Team Z" 7 "#00ff00" ∈ leaderboard_of (main sample_env old_world).2.
Proof.
  assert (NoDup (ids (leaderboard_of old_world))) as Hnd.
  { apply (bool_decide_unpack _). vm_compute. exact I. }
  assert (mkEntry "z" "Team Z" 7 "#00ff00" ∈ leaderboard_of old_world) as Hin
    by apply list_elem_of_here.
  assert ("z" ∉ team_id <$> config_of old_world) as Hout.
  { apply (bool_decide_unpack _). vm_compute. exact I. }
  split; [exact Hnd|]. split; [exact Hin|]. split; [exact Hout|].
  exact (proj1 (unconfigured_entry_retained sample_env old_world _ Hnd Hin) Hout).
Defined.

(** C10. In a leaderboard with one entry per identifier, the entry a run
    writes for an identifier that already had one has the old identifier,
    name and colour, whatever name and colour the configuration gives that
    identifier; only [total_commits] changes, by the window count. It is the
    only entry written under that identifier. *)
Theorem existing_entry_changes_only_total env w e :
  NoDup (ids (leaderboard_of w)) → e ∈ leaderboard_of w →
  ∃ e', e' ∈ leaderboard_of (main env w).2 ∧
        entry_id e' = entry_id e ∧
        entry_name e' = entry_name e ∧
        entry_color e' = entry_color e ∧
        total_commits e'
        = total_commits e + windowCount env (config_of w) (entry_id e) ∧
        ∀ e'', e'' ∈ leaderboard_of (main env w).2 →
               entry_id e'' = entry_id e → e'' = e'.
Proof.
  intros Hnd Hin. rewrite leaderboard_after.
  destruct (existing_entry_after env w e Hnd Hin) as [Hafter Huniq].
  eexists. split; [exact Hafter|]. split_and!; done.
Qed.

Lemma existing_entry_changes_only_total_witness :
  NoDup (ids (leaderboard_of old_world)) ∧
  mkEntry "a" "Old name" 2 "#111111" ∈ leaderboard_of old_world ∧
  team_name <$> config_of old_world = ["Team A"; "Team B"] ∧
  ∃ e', e' ∈ leaderboard_of (main sample_env old_world).2 ∧
        entry_id e' = "a" ∧ entry_name e' = "Old name" ∧
        entry_color e' = "#111111" ∧ total_commits e' = 5.
Proof.
  assert (NoDup (ids (leaderboard_of old_world))) as Hnd.
  { apply (bool_decide_unpack _). vm_compute. exact I. }
  assert (mkEntry "a" "Old name" 2 "#111111" ∈ leaderboard_of old_world) as Hin
    by apply list_elem_of_further, list_elem_of_here.
  split; [exact Hnd|]. split; [exact Hin|]. split; [reflexivity|].
  destruct (existing_entry_changes_only_total sample_env old_world _ Hnd Hin)
    as (e' & H1 & H2 & H3 & H4 & H5 & _).
  exists e'. split; [exact H1|]. split; [exact H2|]. split; [exact H3|].
  split; [exact H4|]. rewrite H5. reflexivity.
Defined.

(** ** The new history entry *)

Lemma history_after env w : history_of (main env w).2 = newHistory env w.
Proof. unfold history_of at 1. by rewrite main_history. Qed.

Lemma filter_absent_id cfg T :
  T ∉ team_id <$> cfg → filter (λ t', team_id t' = T) cfg = [].
Proof.
  induction cfg as [|t cfg IH]; csimpl; [done|].
  rewrite not_elem_of_cons. intros [Hne Hout].
  rewrite filter_cons, decide_False by done. by apply IH.
Qed.

Lemma filter_unique_id cfg t :
  NoDup (team_id <$> cfg) → t ∈ cfg →
  filter (λ t', team_id t' = team_id t) cfg = [t].
Proof.
  induction cfg as [|t' cfg IH]; csimpl; intros Hnd Hin.
  - by apply elem_of_nil in Hin.
  - apply NoDup_cons in Hnd as [Hout Hnd]. rewrite filter_cons.
    apply elem_of_cons in Hin as [->|Hin].
    + rewrite decide_True by done. f_equal. by apply filter_absent_id.
    + rewrite decide_False; [by apply IH|].
      intros Heq. apply Hout. rewrite Heq. by apply list_elem_of_fmap_2.
Qed.

(** C5. The Commit Counter returns [commitCount] for every repository path;
    a team's window count [windowCommits] is the sum of these over its
    repositories. The last entry of the history a run writes is the entry of
    this run, labelled and stamped with the time of the run: its [total] is the sum of the window counts of all configured
    teams; with unique team identifiers its [teams] mapping holds, under each
    configured team's identifier, that team's window count; and it holds
    nothing under an identifier that is not configured. *)
Theorem window_counts_recorded env w :
  (∀ repoPath w0,
     (getCommitsInWindow env (JS.split "/" repoPath !! 0%nat)
        (JS.split "/" repoPath !! 1%nat) (sinceTime env) (untilTime env) w0).1
     = Normal (commitCount env repoPath)) ∧
  (∀ team w0,
     (teamWindowCommits env (sinceTime env) (untilTime env) (team_repos team) w0).1
     = Normal (sumZ (commitCount env <$> team_repos team))) ∧
  ∃ entry,
    last (history_of (main env w).2) = Some entry ∧
    time_label entry = toLocaleTimeString env (Date_now env) ∧
    timestamp entry = Date_now env ∧
    total entry = sumZ (windowCommits env <$> config_of w) ∧
    (NoDup (team_id <$> config_of w) →
       ∀ team, team ∈ config_of w →
         teams entry !! team_id team = Some (windowCommits env team)) ∧
    (∀ T, T ∉ team_id <$> config_of w → teams entry !! T = None).
Proof.
  split_and!.
  - intros repoPath w0.
    by destruct (getCommitsInWindow_run env repoPath w0) as (w1 & -> & _).
  - intros team w0.
    by destruct (teamWindowCommits_run env team w0) as (w1 & -> & _).
  - exists (newHistoryEntry env w). rewrite history_after.
    split; [apply slice_last_50_push|].
    unfold newHistoryEntry. rewrite merged_unfold.
    destruct (mergeAll_history env (config_of w)
                (JS.Map_new ((λ t, (entry_id t, t)) <$> leaderboard_of w))
                (mkHistoryEntry (toLocaleTimeString env (Date_now env))
                   (Date_now env) ∅ 0)) as (Hlabel & Hstamp & Htotal & Hteams).
    simpl in Hlabel, Hstamp, Htotal, Hteams. split_and!.
    + done.
    + done.
    + rewrite Htotal. lia.
    + intros Hnd team Hin. by rewrite Hteams, filter_unique_id.
    + intros T Hout. by rewrite Hteams, filter_absent_id.
Qed.

(** The scenario of the specification: 3 commits for [o/r1], a failing query
    for [o/r2]. *)
Lemma window_counts_recorded_witness :
  NoDup (team_id <$> config_of sample_world) ∧
  ∃ entry,
    last (history_of (main sample_env sample_world).2) = Some entry ∧
    total entry = 3 ∧
    teams entry !! "a" = Some 3 ∧
    teams entry !! "b" = Some 0.
Proof.
  assert (NoDup (team_id <$> config_of sample_world)) as Hnd.
  { apply (bool_decide_unpack _). vm_compute. exact I. }
  split; [exact Hnd|].
  destruct (window_counts_recorded sample_env sample_world)
    as (_ & _ & entry & Hlast & _ & _ & Htotal & Hteams & _).
  exists entry. split; [exact Hlast|]. split; [rewrite Htotal; reflexivity|].
  split.
  - apply (Hteams Hnd (mkTeam "a" "Team A" ["o/r1"] "#ff0000")).
    apply list_elem_of_here.
  - apply (Hteams Hnd (mkTeam "b" "Team B" ["o/r2"] "#0000ff")).
    apply list_elem_of_further, list_elem_of_here.
Defined.

Example scenario_leaderboard :
  leaderboard_of (main sample_env sample_world).2
  = [mkEntry "a" "Team A" 3 "#ff0000"; mkEntry "b" "Team B" 0 "#0000ff"].
Proof. reflexivity. Qed.

(** ** A repository whose query fails *)

Lemma sumZ_filter_zero {A} (f : A → Z) (P : A → Prop) `{∀ x, Decision (P x)} l :
  (∀ x, ¬ P x → f x = 0) → sumZ (f <$> filter P l) = sumZ (f <$> l).
Proof.
  intros Hf. induction l as [|x l IH]; [done|].
  rewrite filter_cons, fmap_cons, sumZ_cons.
  destruct (decide (P x)) as [Hx|Hx].
  - by rewrite fmap_cons, sumZ_cons, IH.
  - rewrite IH, (Hf x Hx). lia.
Qed.

Lemma windowCommits_strip env repoPath team :
  commitCount env repoPath = 0 →
  windowCommits env (strip_repo repoPath team) = windowCommits env team.
Proof.
  intros Hzero. unfold windowCommits, strip_repo; simpl.
  apply sumZ_filter_zero. intros r Hr.
  destruct (decide (r = repoPath)) as [->|Hne]; [done|]. by destruct Hr.
Qed.

Lemma mergeAll_strip env repoPath cfg : ∀ st,
  commitCount env repoPath = 0 →
  mergeAll env (strip_repo repoPath <$> cfg) st = mergeAll env cfg st.
Proof.
  induction cfg as [|t cfg IH]; intros [m h] Hzero; [done|].
  rewrite fmap_cons, !mergeAll_cons, windowCommits_strip by done.
  by apply IH.
Qed.

Lemma contents_without_repo repoPath f :
  contents (without_repo repoPath f) = strip_repo repoPath <$> contents f.
Proof. by destruct f. Qed.

(** C3. When the commit-listing query of a repository fails, with whatever
    error: the Commit Counter logs the repository and returns 0; every
    team's window count is what it is without that repository; the run
    writes the leaderboard and the history, and ends with the status, that it
    would with that repository removed from the configuration; and the run
    completes: it exits with 0 when the publish succeeds, having written a
    leaderboard and a history. *)
Theorem failed_query_contributes_zero env w repoPath error :
  query env repoPath = Throw error →
  let w' := mkWorld (without_repo repoPath (file_teams w))
              (file_leaderboard w) (file_history w) (Worker.console w) in
  (∀ w0,
     getCommitsInWindow env (JS.split "/" repoPath !! 0%nat)
       (JS.split "/" repoPath !! 1%nat) (sinceTime env) (untilTime env) w0
     = (Normal 0,
        mkWorld (file_teams w0) (file_leaderboard w0) (file_history w0)
          (Worker.console w0
           ++ [repo_error_line (JS.split "/" repoPath !! 0%nat)
                 (JS.split "/" repoPath !! 1%nat) error]))) ∧
  (∀ team, windowCommits env team = windowCommits env (strip_repo repoPath team)) ∧
  leaderboard_of (main env w).2 = leaderboard_of (main env w').2 ∧
  history_of (main env w).2 = history_of (main env w').2 ∧
  (main env w).1 = (main env w').1 ∧
  (exec_err (exec env (commands env)) = None → (main env w).1 = 0) ∧
  file_leaderboard (main env w).2 = Content (newLeaderboard env w) ∧
  file_history (main env w).2 = Content (newHistory env w).
Proof.
  intros Hq w'.
  assert (commitCount env repoPath = 0) as Hzero
    by (unfold commitCount; by rewrite Hq).
  assert (merged env (config_of w') (leaderboard_of w')
          = merged env (config_of w) (leaderboard_of w)) as Hmerged.
  { unfold config_of, w'; simpl. rewrite contents_without_repo.
    rewrite !merged_unfold. by apply mergeAll_strip. }
  split_and!.
  - intros w0. unfold getCommitsInWindow, try_catch. unfold query in Hq.
    by rewrite Hq.
  - intros team. by rewrite windowCommits_strip.
  - rewrite !leaderboard_after. unfold newLeaderboard. by rewrite Hmerged.
  - rewrite !history_after. unfold newHistory, newHistoryEntry.
    by rewrite Hmerged.
  - by rewrite !main_status.
  - intros Hok. by rewrite main_status, Hok.
  - apply main_leaderboard.
  - apply main_history.
Qed.

Lemma failed_query_contributes_zero_witness :
  query sample_env "o/r2" = Throw (JS.mkError (Some 404) "Not Found") ∧
  (getCommitsInWindow sample_env (Some "o") (Some "r2") (sinceTime sample_env)
     (untilTime sample_env) sample_world).1 = Normal 0 ∧
  (main sample_env sample_world).1 = 0 ∧
  leaderboard_of (main sample_env sample_world).2
  = [mkEntry "a" "Team A" 3 "#ff0000"; mkEntry "b" "Team B" 0 "#0000ff"].
Proof.
  destruct (failed_query_contributes_zero sample_env sample_world "o/r2"
              (JS.mkError (Some 404) "Not Found") eq_refl)
    as (Hcount & _ & _ & _ & _ & Hexit & Hlb & _).
  split; [reflexivity|]. split; [|split].
  - change (Some "o") with (JS.split "/" "o/r2" !! 0%nat).
    change (Some "r2") with (JS.split "/" "o/r2" !! 1%nat).
    rewrite Hcount. reflexivity.
  - exact (Hexit eq_refl).
  - unfold leaderboard_of. rewrite Hlb. reflexivity.
Defined.

(** ** The dashboard's fetch cycle *)

(** A cycle always completes normally and requests the same URLs. *)
Lemma fetchData_run cfg net b :
  ∃ b', Dashboard.fetchData cfg net b = (Normal (), b') ∧
        Dashboard.requests b' = Dashboard.requests b ++ cycle_requests cfg net ∧
        Dashboard.loading (Dashboard.app b') = false.
Proof.
  unfold Dashboard.fetchData, cycle_requests, leaderboard_result,
    try_finally, try_catch, bind, Dashboard.fetch, Dashboard.json,
    Dashboard.setLoading, Dashboard.setLeaderboard, Dashboard.setHistoryData,
    Dashboard.setLastUpdate, Dashboard.set_app, Dashboard.console_emit,
    modify, ret, throw; simpl.
  destruct (Dashboard.fetch_leaderboard net _) as [[l|e]|e]; simpl;
    [|eexists; split; [reflexivity|]; split; reflexivity..].
  destruct (Dashboard.fetch_history net _) as [[h|e]|e]; simpl;
    (eexists; split; [reflexivity|]; split; [|reflexivity]);
    simpl; by rewrite <- app_assoc.
Qed.

Lemma poll_requests cfg net b :
  Dashboard.requests (Dashboard.poll cfg b net)
  = Dashboard.requests b ++ cycle_requests cfg net.
Proof.
  unfold Dashboard.poll.
  by destruct (fetchData_run cfg net b) as (b' & -> & Hreq & _).
Qed.

Lemma session_requests cfg cycles : ∀ b,
  Dashboard.requests (foldl (Dashboard.poll cfg) b cycles)
  = Dashboard.requests b ++ concat (cycle_requests cfg <$> cycles).
Proof.
  induction cycles as [|net cycles IH]; intros b; simpl.
  - by rewrite app_nil_r.
  - rewrite IH, poll_requests. csimpl. by rewrite <- app_assoc.
Qed.

(** C8, as the code has it. The two URLs are built once, when the script is
    loaded at [t1] and [t2]; every fetch of the session, whenever its cycle
    runs, requests one of these two strings, so the cache parameter of a poll
    is that of the initial load. *)
Theorem cache_parameter_fixed_at_load t1 t2 cycles :
  Forall
    (λ url,
       url = Dashboard.RAW_URL_BASE +:+ "data/leaderboard.json?cache=" +:+ pretty t1
       ∨ url = Dashboard.RAW_URL_BASE +:+ "data/history.json?cache=" +:+ pretty t2)
    (Dashboard.requests (Dashboard.session (Dashboard.load t1 t2) cycles)).
Proof.
  unfold Dashboard.session. rewrite session_requests. simpl.
  apply Forall_concat, Forall_fmap, Forall_forall. intros net _.
  unfold cycle_requests. simpl.
  destruct (leaderboard_result _ net);
    repeat (apply Forall_cons; split); try apply Forall_nil; auto.
Qed.

(** Loaded at 1000 ms: the initial load and the poll 30 seconds later ask
    for the same two URLs. *)
Example second_poll_repeats_urls :
  Dashboard.requests
    (Dashboard.session (Dashboard.load 1000 1000) [online 1000; online 31000])
  = [ Dashboard.RAW_URL_BASE +:+ "data/leaderboard.json?cache=1000";
      Dashboard.RAW_URL_BASE +:+ "data/history.json?cache=1000";
      Dashboard.RAW_URL_BASE +:+ "data/leaderboard.json?cache=1000";
      Dashboard.RAW_URL_BASE +:+ "data/history.json?cache=1000" ].
Proof. reflexivity. Qed.

(** C9 as stated fails: when the leaderboard arrives and the history does
    not, the cycle is a failed one and the displayed leaderboard has already
    been replaced. *)
Lemma history_failure_replaces_leaderboard :
  cycle_failure (Dashboard.load 1000 1000) (history_down 31000)
  = Some (JS.mkError None "Failed to fetch") ∧
  Dashboard.leaderboard (Dashboard.app shown)
  = [mkEntry "a" "Team A" 3 "#ff0000"] ∧
  Dashboard.leaderboard
    (Dashboard.app (Dashboard.poll (Dashboard.load 1000 1000) shown (history_down 31000)))
  = [mkEntry "a" "Team A" 8 "#ff0000"] ∧
  ¬ snapshot_retained (Dashboard.load 1000 1000) (history_down 31000) shown.
Proof.
  split; [reflexivity|]. split; [reflexivity|]. split; [reflexivity|].
  intros [Hlb _]. vm_compute in Hlb. discriminate Hlb.
Qed.

(** C9, amended. In a fetch cycle in which fetching or parsing an artifact
    fails, [fetchData] completes normally, the error is logged, the displayed
    history and the time of the last update stay as they were, and the
    loading flag is cleared. The displayed leaderboard stays as it was when
    the failure is the leaderboard's; when the leaderboard arrived and the
    failure is the history's, the displayed leaderboard is the new one. *)
Theorem failed_cycle_keeps_history cfg net b error :
  cycle_failure cfg net = Some error →
  ∃ b',
    Dashboard.fetchData cfg net b = (Normal (), b') ∧
    Dashboard.historyData (Dashboard.app b') = Dashboard.historyData (Dashboard.app b) ∧
    Dashboard.lastUpdate (Dashboard.app b') = Dashboard.lastUpdate (Dashboard.app b) ∧
    Dashboard.loading (Dashboard.app b') = false ∧
    Dashboard.console b'
    = Dashboard.console b ++ [ConsoleErrorWith "Error fetching data:" error] ∧
    Dashboard.leaderboard (Dashboard.app b')
    = match leaderboard_result cfg net with
      | Normal newLeaderboard => newLeaderboard
      | Throw _ => Dashboard.leaderboard (Dashboard.app b)
      end.
Proof.
  unfold cycle_failure, leaderboard_result, history_result.
  unfold Dashboard.fetchData,
    try_finally, try_catch, bind, Dashboard.fetch, Dashboard.json,
    Dashboard.setLoading, Dashboard.setLeaderboard, Dashboard.setHistoryData,
    Dashboard.setLastUpdate, Dashboard.set_app, Dashboard.console_emit,
    modify, ret, throw; simpl.
  destruct (Dashboard.fetch_leaderboard net _) as [[l|e]|e]; simpl.
  - destruct (Dashboard.fetch_history net _) as [[h|e]|e]; simpl;
      intros [= <-]; eexists; split_and!; reflexivity.
  - intros [= <-]; eexists; split_and!; reflexivity.
  - intros [= <-]; eexists; split_and!; reflexivity.
Qed.

Lemma failed_cycle_keeps_history_witness :
  cycle_failure (Dashboard.load 1000 1000) (history_down 31000)
  = Some (JS.mkError None "Failed to fetch") ∧
  ∃ b',
    Dashboard.fetchData (Dashboard.load 1000 1000) (history_down 31000) shown
    = (Normal (), b') ∧
    Dashboard.historyData (Dashboard.app b') = [] ∧
    Dashboard.leaderboard (Dashboard.app b') = [mkEntry "a" "Team A" 8 "#ff0000"].
Proof.
  split; [reflexivity|].
  destruct (failed_cycle_keeps_history (Dashboard.load 1000 1000)
              (history_down 31000) shown _ eq_refl)
    as (b' & Hrun & Hhist & _ & _ & _ & Hlb).
  exists b'. split; [exact Hrun|]. split; [exact Hhist|exact Hlb].
Defined.

(** ** More about one run: identifiers *)

Lemma elem_of_Map_keys_set {V} x k (v : V) (m : JS.Map V) :
  x ∈ JS.Map_keys (JS.Map_set k v m) ↔ x ∈ JS.Map_keys m ∨ x = k.
Proof.
  rewrite Map_keys_set. case_decide as Hk.
  - split; [by left|]. intros [?| ->]; done.
  - rewrite elem_of_app, list_elem_of_singleton. done.
Qed.

Lemma elem_of_Map_new_keys {V} k (entries : list (string * V)) :
  k ∈ JS.Map_keys (JS.Map_new entries) ↔ k ∈ entries.*1.
Proof.
  unfold JS.Map_new.
  enough (∀ m, k ∈ JS.Map_keys (foldl (λ m kv, JS.Map_set kv.1 kv.2 m) m entries)
               ↔ k ∈ JS.Map_keys m ∨ k ∈ entries.*1) as Hgen.
  { rewrite Hgen. unfold JS.Map_keys at 1. simpl.
    split; [intros [?%elem_of_nil|?]; done|by right]. }
  induction entries as [|[k' v'] entries IH]; intros m; csimpl.
  - split; [by left|]. intros [?|?%elem_of_nil]; done.
  - rewrite IH, elem_of_Map_keys_set, elem_of_cons. tauto.
Qed.

Lemma mergeAll_keys env cfg : ∀ m h x,
  x ∈ JS.Map_keys (mergeAll env cfg (m, h)).1
  ↔ x ∈ JS.Map_keys m ∨ x ∈ team_id <$> cfg.
Proof.
  induction cfg as [|t cfg IH]; intros m h x.
  - csimpl. split; [by left|]. intros [?|?%elem_of_nil]; done.
  - rewrite mergeAll_cons.
    destruct (mergeTeam t (windowCommits env t) (m, h)) as [m1 h1] eqn:E.
    pose proof (mergeTeam_map t (windowCommits env t) m h) as Hm1.
    rewrite E in Hm1; simpl in Hm1. subst m1.
    rewrite IH, elem_of_Map_keys_set, fmap_cons, elem_of_cons. tauto.
Qed.

Lemma newLeaderboard_ids_keys env w :
  ids (newLeaderboard env w)
  ≡ₚ JS.Map_keys (merged env (config_of w) (leaderboard_of w)).1.
Proof.
  unfold newLeaderboard, ids. rewrite sort_perm.
  fold (ids (JS.Map_values (merged env (config_of w) (leaderboard_of w)).1)).
  by rewrite keyed_ids by apply merged_keyed.
Qed.

(** X1. The identifiers of the leaderboard a run writes are exactly those
    of the leaderboard it read together with those of the configured teams,
    whatever the files hold: a run neither loses nor invents an identifier. *)
Theorem run_keeps_and_adds_identifiers env w T :
  T ∈ ids (leaderboard_of (main env w).2)
  ↔ T ∈ ids (leaderboard_of w) ∨ T ∈ team_id <$> config_of w.
Proof.
  rewrite leaderboard_after, newLeaderboard_ids_keys, merged_unfold.
  rewrite mergeAll_keys, elem_of_Map_new_keys, initial_keys. done.
Qed.

(** X2. The leaderboard a run writes has pairwise distinct identifiers, also
    when the leaderboard it read repeats an identifier or the configuration
    lists a team twice. *)
Theorem written_leaderboard_ids_distinct env w :
  NoDup (ids (leaderboard_of (main env w).2)).
Proof. rewrite leaderboard_after. apply newLeaderboard_NoDup. Qed.

(** X3. A configured team whose identifier has no entry yet gets one: it
    carries the name and colour of the first configured team with that
    identifier, and the identifier's window count as its total. *)
Theorem first_encounter_creates_entry env w team :
  team_id team ∉ ids (leaderboard_of w) →
  head (filter (λ t, team_id t = team_id team) (config_of w)) = Some team →
  mkEntry (team_id team) (team_name team)
    (windowCount env (config_of w) (team_id team)) (team_color team)
  ∈ leaderboard_of (main env w).2.
Proof.
  intros Hnew Hfirst. rewrite leaderboard_after. apply newLeaderboard_elem.
  simpl. rewrite merged_unfold, mergeAll_get.
  assert (JS.Map_get (team_id team)
            (JS.Map_new ((λ t, (entry_id t, t)) <$> leaderboard_of w)) = None)
    as ->.
  { apply Map_get_None. by rewrite elem_of_Map_new_keys, initial_keys. }
  by rewrite Hfirst.
Qed.

Lemma first_encounter_creates_entry_witness :
  ("a" ∉ ids (leaderboard_of sample_world)) ∧
  mkEntry "a" "Team A" 3 "#ff0000" ∈ leaderboard_of (main sample_env sample_world).2.
Proof.
  assert ("a" ∉ ids (leaderboard_of sample_world)) as Hnew
    by apply not_elem_of_nil.
  split; [exact Hnew|].
  exact (first_encounter_creates_entry sample_env sample_world
           (mkTeam "a" "Team A" ["o/r1"] "#ff0000") Hnew eq_refl).
Defined.

(** ** More about one run: files and exit status *)

(** X4. A run sees its three files only through what [readJson] yields: a
    file that is missing, a file that does not parse and a file holding the
    empty list lead to the same exit status and the same written leaderboard
    and history. What an unparsable artifact held is lost. *)
Theorem unparsable_file_reads_as_empty env w1 w2 :
  config_of w1 = config_of w2 →
  leaderboard_of w1 = leaderboard_of w2 →
  history_of w1 = history_of w2 →
  (main env w1).1 = (main env w2).1 ∧
  file_leaderboard (main env w1).2 = file_leaderboard (main env w2).2 ∧
  file_history (main env w1).2 = file_history (main env w2).2.
Proof.
  intros Hc Hl Hh. rewrite !main_status, !main_leaderboard, !main_history.
  unfold newLeaderboard, newHistory, newHistoryEntry. rewrite Hc, Hl, Hh. done.
Qed.

Lemma unparsable_file_reads_as_empty_witness :
  file_leaderboard garbled_world = Unreadable (JS.mkError None "Unexpected token") ∧
  file_leaderboard sample_world = Missing ∧
  file_leaderboard (main sample_env garbled_world).2
  = file_leaderboard (main sample_env sample_world).2.
Proof.
  split; [reflexivity|]. split; [reflexivity|].
  exact (proj1 (proj2 (unparsable_file_reads_as_empty sample_env garbled_world
                         sample_world eq_refl eq_refl eq_refl))).
Defined.


(** ** More about one run: the console *)










(** ** More about one run: the sum of the totals *)

Lemma totalHackathonCommits_sum lb :
  Dashboard.totalHackathonCommits lb = sumZ (total_commits <$> lb).
Proof.
  unfold Dashboard.totalHackathonCommits.
  enough (∀ a, foldl (λ sum team, sum + total_commits team) a lb
               = a + sumZ (total_commits <$> lb)) as Hgen
    by (rewrite Hgen; lia).
  induction lb as [|e lb IH]; intros a.
  - unfold sumZ; simpl. lia.
  - cbn [foldl]. rewrite IH, fmap_cons, sumZ_cons. lia.
Qed.

Lemma sumZ_perm l l' : l ≡ₚ l' → sumZ l = sumZ l'.
Proof.
  induction 1 as [|x l l' _ IH|x y l|l l' l'' _ IH1 _ IH2];
    rewrite ?sumZ_cons; [done|lia|lia|congruence].
Qed.

Lemma Map_set_sum k e (m : JS.Map LeaderboardEntry) :
  sumZ (total_commits <$> JS.Map_values (JS.Map_set k e m))
  = sumZ (total_commits <$> JS.Map_values m)
    - from_option total_commits 0 (JS.Map_get k m) + total_commits e.
Proof.
  unfold JS.Map_values. induction m as [|[k' e'] m IH].
  - unfold sumZ; simpl. lia.
  - cbn [JS.Map_set JS.Map_get].
    destruct (decide (k = k')) as [->|Hne];
      rewrite !fmap_cons, !sumZ_cons; cbn [snd from_option].
    + lia.
    + rewrite IH. lia.
Qed.

Lemma mergeAll_sum env cfg : ∀ m h,
  sumZ (total_commits <$> JS.Map_values (mergeAll env cfg (m, h)).1)
  = sumZ (total_commits <$> JS.Map_values m) + sumZ (windowCommits env <$> cfg).
Proof.
  induction cfg as [|t cfg IH]; intros m h.
  - rewrite fmap_nil. change (sumZ []) with 0. simpl. lia.
  - rewrite mergeAll_cons.
    destruct (mergeTeam t (windowCommits env t) (m, h)) as [m1 h1] eqn:E.
    pose proof (mergeTeam_map t (windowCommits env t) m h) as Hm1.
    rewrite E in Hm1; simpl in Hm1. subst m1.
    rewrite IH, Map_set_sum, fmap_cons, sumZ_cons.
    destruct (JS.Map_get (team_id t) m) as [e|]; simpl; lia.
Qed.

Lemma initial_values lb :
  NoDup (ids lb) →
  JS.Map_values (JS.Map_new ((λ t, (entry_id t, t)) <$> lb)) = lb.
Proof.
  intros Hnd. rewrite Map_new_distinct by (by rewrite initial_keys).
  unfold JS.Map_values. rewrite <- list_fmap_compose. apply list_fmap_id.
Qed.

(** X7. Starting from a leaderboard with one entry per identifier, the sum
    of all totals in the written leaderboard (the figure the dashboard shows
    as "Total Hackathon Commits") is the sum in the leaderboard read plus
    the [total] of the history entry the same run appends. *)
Theorem sum_of_totals_grows_by_window_total env w :
  NoDup (ids (leaderboard_of w)) →
  ∃ entry,
    last (history_of (main env w).2) = Some entry ∧
    Dashboard.totalHackathonCommits (leaderboard_of (main env w).2)
    = Dashboard.totalHackathonCommits (leaderboard_of w) + total entry.
Proof.
  intros Hnd. exists (newHistoryEntry env w). rewrite history_after.
  split; [apply slice_last_50_push|].
  rewrite leaderboard_after, !totalHackathonCommits_sum.
  unfold newLeaderboard, newHistoryEntry.
  rewrite (sumZ_perm _ _ (fmap_Permutation _ _ _ (sort_perm _ _))).
  rewrite merged_unfold, mergeAll_sum, initial_values by done.
  destruct (mergeAll_history env (config_of w)
              (JS.Map_new ((λ t, (entry_id t, t)) <$> leaderboard_of w))
              (mkHistoryEntry (toLocaleTimeString env (Date_now env))
                 (Date_now env) ∅ 0)) as (_ & _ & -> & _).
  simpl. lia.
Qed.

Lemma sum_of_totals_grows_by_window_total_witness :
  NoDup (ids (leaderboard_of old_world)) ∧
  Dashboard.totalHackathonCommits (leaderboard_of old_world) = 9 ∧
  ∃ entry,
    last (history_of (main sample_env old_world).2) = Some entry ∧
    Dashboard.totalHackathonCommits (leaderboard_of (main sample_env old_world).2)
    = 9 + total entry.
Proof.
  assert (NoDup (ids (leaderboard_of old_world))) as Hnd.
  { apply (bool_decide_unpack _). vm_compute. exact I. }
  split; [exact Hnd|]. split; [reflexivity|].
  exact (sum_of_totals_grows_by_window_total sample_env old_world Hnd).
Defined.

(** ** More about one run: the order of the leaderboard *)

Lemma mergeAll_keys_order env cfg : ∀ m h,
  JS.Map_keys (mergeAll env cfg (m, h)).1
  = JS.Map_keys m ++ (team_id <$> firstTeams (JS.Map_keys m) cfg).
Proof.
  induction cfg as [|t cfg IH]; intros m h.
  - simpl. by rewrite app_nil_r.
  - rewrite mergeAll_cons.
    destruct (mergeTeam t (windowCommits env t) (m, h)) as [m1 h1] eqn:E.
    pose proof (mergeTeam_map t (windowCommits env t) m h) as Hm1.
    rewrite E in Hm1; simpl in Hm1. subst m1.
    rewrite IH, Map_keys_set. cbn [firstTeams].
    destruct (decide (team_id t ∈ JS.Map_keys m)); [done|].
    rewrite fmap_cons, <- app_assoc. done.
Qed.

Lemma firstTeams_fresh seen cfg t :
  t ∈ firstTeams seen cfg → team_id t ∉ seen.
Proof.
  revert seen. induction cfg as [|t' cfg IH]; intros seen; cbn [firstTeams].
  - by intros ?%elem_of_nil.
  - destruct (decide (team_id t' ∈ seen)) as [Hin|Hout]; [apply IH|].
    intros [->|Hin]%elem_of_cons; [done|].
    apply IH in Hin. rewrite elem_of_app in Hin. tauto.
Qed.

Lemma firstTeams_head seen cfg t :
  t ∈ firstTeams seen cfg →
  head (filter (λ t', team_id t' = team_id t) cfg) = Some t.
Proof.
  revert seen. induction cfg as [|t' cfg IH]; intros seen; cbn [firstTeams].
  - by intros ?%elem_of_nil.
  - rewrite filter_cons.
    destruct (decide (team_id t' ∈ seen)) as [Hin|Hout].
    + intros Ht. pose proof (firstTeams_fresh _ _ _ Ht) as Hfresh.
      rewrite decide_False by (intros Heq; by rewrite Heq in Hin).
      by eapply IH.
    + intros [->|Ht]%elem_of_cons; [by rewrite decide_True|].
      pose proof (firstTeams_fresh _ _ _ Ht) as Hfresh.
      rewrite decide_False; [by eapply IH|].
      intros Heq. apply Hfresh. rewrite elem_of_app, list_elem_of_singleton.
      by right.
Qed.

Lemma firstTeams_all_seen seen cfg :
  (∀ t, t ∈ cfg → team_id t ∈ seen) → firstTeams seen cfg = [].
Proof.
  induction cfg as [|t cfg IH]; intros Hseen; cbn [firstTeams]; [done|].
  rewrite decide_True by apply Hseen, list_elem_of_here.
  apply IH. intros t' Hin. by apply Hseen, list_elem_of_further.
Qed.

Lemma Map_values_by_keys {V} (d : V) (m : JS.Map V) :
  NoDup (JS.Map_keys m) →
  JS.Map_values m = (λ k, default d (JS.Map_get k m)) <$> JS.Map_keys m.
Proof.
  unfold JS.Map_values, JS.Map_keys.
  induction m as [|[k v] m IH]; intros Hnd; [done|].
  rewrite !fmap_cons in *. apply NoDup_cons in Hnd as [Hout Hnd].
  cbn [JS.Map_get fst snd]. rewrite decide_True by done. simpl. f_equal.
  rewrite IH by done. apply Forall_fmap_ext_1, Forall_forall.
  intros k' Hin. rewrite decide_False; [done|]. by intros ->.
Qed.

Lemma merged_get_existing env w e :
  NoDup (ids (leaderboard_of w)) → e ∈ leaderboard_of w →
  JS.Map_get (entry_id e) (merged env (config_of w) (leaderboard_of w)).1
  = Some (bump e (windowCount env (config_of w) (entry_id e))).
Proof.
  intros Hnd Hin. rewrite merged_unfold, mergeAll_get.
  assert (JS.Map_get (entry_id e)
            (JS.Map_new ((λ t, (entry_id t, t)) <$> leaderboard_of w))
          = Some e) as -> by (by apply initial_get).
  done.
Qed.

Lemma merged_get_first env w t :
  t ∈ firstTeams (ids (leaderboard_of w)) (config_of w) →
  JS.Map_get (team_id t) (merged env (config_of w) (leaderboard_of w)).1
  = Some (freshEntry t (windowCount env (config_of w) (team_id t))).
Proof.
  intros Ht. rewrite merged_unfold, mergeAll_get.
  assert (JS.Map_get (team_id t)
            (JS.Map_new ((λ t, (entry_id t, t)) <$> leaderboard_of w)) = None)
    as ->.
  { apply Map_get_None. rewrite elem_of_Map_new_keys, initial_keys.
    by eapply firstTeams_fresh. }
  by rewrite (firstTeams_head _ _ _ Ht).
Qed.

(** The map before sorting: the old entries with their counts added, in
    their old order, then the entries of the newly met teams, in
    configuration order. *)
Lemma merged_values env w :
  NoDup (ids (leaderboard_of w)) →
  JS.Map_values (merged env (config_of w) (leaderboard_of w)).1
  = ((λ e, bump e (windowCount env (config_of w) (entry_id e)))
       <$> leaderboard_of w)
    ++ ((λ t, freshEntry t (windowCount env (config_of w) (team_id t)))
          <$> firstTeams (ids (leaderboard_of w)) (config_of w)).
Proof.
  intros Hnd.
  assert (JS.Map_keys (merged env (config_of w) (leaderboard_of w)).1
          = ids (leaderboard_of w)
            ++ (team_id <$> firstTeams (ids (leaderboard_of w)) (config_of w)))
    as Hkeys.
  { rewrite merged_unfold, mergeAll_keys_order.
    assert (JS.Map_keys (JS.Map_new ((λ t, (entry_id t, t)) <$> leaderboard_of w))
            = ids (leaderboard_of w)) as ->; [|done].
    rewrite Map_new_distinct by (by rewrite initial_keys).
    apply initial_keys. }
  rewrite (Map_values_by_keys (mkEntry "" "" 0 "")) by apply merged_NoDup.
  rewrite Hkeys, fmap_app. f_equal.
  - unfold ids. rewrite <- list_fmap_compose.
    apply Forall_fmap_ext_1, Forall_forall. intros e Hin. simpl.
    by rewrite merged_get_existing.
  - rewrite <- list_fmap_compose.
    apply Forall_fmap_ext_1, Forall_forall. intros t Hin. simpl.
    by rewrite merged_get_first.
Qed.

(** Stability of the sort: entries with the same total keep their order. *)
Lemma sort_insert_ties n e l :
  filter (λ x, total_commits x = n) (JS.sort_insert by_total_desc e l)
  = filter (λ x, total_commits x = n) (e :: l).
Proof.
  induction l as [|y l IH]; [done|]. cbn [JS.sort_insert].
  destruct (Z.leb_spec (by_total_desc e y) 0) as [Hle|Hgt]; [done|].
  unfold by_total_desc in Hgt.
  rewrite (filter_cons _ y), IH, !filter_cons.
  destruct (decide (total_commits y = n)), (decide (total_commits e = n));
    try done; lia.
Qed.

Lemma sort_ties n l :
  filter (λ x, total_commits x = n) (JS.sort by_total_desc l)
  = filter (λ x, total_commits x = n) l.
Proof.
  induction l as [|e l IH]; [done|].
  change (JS.sort by_total_desc (e :: l))
    with (JS.sort_insert by_total_desc e (JS.sort by_total_desc l)).
  rewrite sort_insert_ties, !filter_cons, IH. done.
Qed.

Lemma sort_of_sorted l :
  StronglySorted (λ a b, total_commits b ≤ total_commits a) l →
  JS.sort by_total_desc l = l.
Proof.
  induction 1 as [|x l Hl IH Hx]; [done|].
  change (JS.sort by_total_desc (x :: l))
    with (JS.sort_insert by_total_desc x (JS.sort by_total_desc l)).
  rewrite IH. destruct l as [|y l]; [done|]. cbn [JS.sort_insert].
  apply Forall_cons in Hx as [Hy _]. unfold by_total_desc.
  destruct (Z.leb_spec (total_commits y - total_commits x) 0); [done|lia].
Qed.

(** X8. Starting from a leaderboard with one entry per identifier, the
    written leaderboard is the stable descending sort of: the old entries,
    each with the window count of its identifier added, in their old order;
    followed by one new entry for each configured identifier that had none,
    in the order the configuration first lists them. *)
Theorem written_leaderboard_is_sorted_merge env w :
  NoDup (ids (leaderboard_of w)) →
  leaderboard_of (main env w).2
  = JS.sort by_total_desc
      (((λ e, mkEntry (entry_id e) (entry_name e)
                (total_commits e + windowCount env (config_of w) (entry_id e))
                (entry_color e))
          <$> leaderboard_of w)
       ++ ((λ t, mkEntry (team_id t) (team_name t)
                   (windowCount env (config_of w) (team_id t)) (team_color t))
             <$> firstTeams (ids (leaderboard_of w)) (config_of w))).
Proof.
  intros Hnd. rewrite leaderboard_after. unfold newLeaderboard.
  by rewrite merged_values.
Qed.

Lemma written_leaderboard_is_sorted_merge_witness :
  NoDup (ids (leaderboard_of old_world)) ∧
  team_id <$> firstTeams (ids (leaderboard_of old_world)) (config_of old_world)
  = ["b"] ∧
  leaderboard_of (main sample_env old_world).2
  = [mkEntry "z" "Team Z" 7 "#00ff00"; mkEntry "a" "Old name" 5 "#111111";
     mkEntry "b" "Team B" 0 "#0000ff"].
Proof.
  assert (NoDup (ids (leaderboard_of old_world))) as Hnd.
  { apply (bool_decide_unpack _). vm_compute. exact I. }
  split; [exact Hnd|]. split; [reflexivity|].
  rewrite (written_leaderboard_is_sorted_merge sample_env old_world Hnd).
  reflexivity.
Defined.

(** X9. Ties keep their order: among the entries of the written leaderboard
    that have the same total, the teams that already had an entry come in
    the order of the leaderboard read, before the newly met teams, which
    come in configuration order. *)
Theorem ties_keep_previous_order env w n :
  NoDup (ids (leaderboard_of w)) →
  filter (λ e, total_commits e = n) (leaderboard_of (main env w).2)
  = filter (λ e, total_commits e = n)
      (((λ e, mkEntry (entry_id e) (entry_name e)
                (total_commits e + windowCount env (config_of w) (entry_id e))
                (entry_color e))
          <$> leaderboard_of w)
       ++ ((λ t, mkEntry (team_id t) (team_name t)
                   (windowCount env (config_of w) (team_id t)) (team_color t))
             <$> firstTeams (ids (leaderboard_of w)) (config_of w))).
Proof.
  intros Hnd. rewrite leaderboard_after. unfold newLeaderboard.
  by rewrite sort_ties, merged_values.
Qed.

Lemma ties_keep_previous_order_witness :
  NoDup (ids (leaderboard_of ranked_world)) ∧
  entry_id <$> filter (λ e, total_commits e = 5)
                 (leaderboard_of (main sample_env ranked_world).2)
  = ["a"; "b"].
Proof.
  assert (NoDup (ids (leaderboard_of ranked_world))) as Hnd.
  { apply (bool_decide_unpack _). vm_compute. exact I. }
  split; [exact Hnd|].
  rewrite (ties_keep_previous_order sample_env ranked_world 5 Hnd).
  reflexivity.
Defined.

(** X10. A quiet run changes nothing in the leaderboard: when the
    leaderboard read has one entry per identifier and is sorted descending,
    every configured team already has an entry, and no configured team has
    a commit in the window, the written leaderboard is the one read. *)
Theorem quiet_run_keeps_leaderboard env w :
  NoDup (ids (leaderboard_of w)) →
  StronglySorted (λ a b, total_commits b ≤ total_commits a) (leaderboard_of w) →
  (∀ t, t ∈ config_of w →
     team_id t ∈ ids (leaderboard_of w) ∧ windowCommits env t = 0) →
  leaderboard_of (main env w).2 = leaderboard_of w.
Proof.
  intros Hnd Hsorted Hquiet. rewrite leaderboard_after. unfold newLeaderboard.
  rewrite merged_values by done.
  rewrite firstTeams_all_seen by (intros t Ht; by apply Hquiet).
  rewrite fmap_nil, app_nil_r.
  assert (∀ T, windowCount env (config_of w) T = 0) as Hzero.
  { intros T. unfold windowCount.
    induction (config_of w) as [|t cfg IH]; [done|].
    rewrite filter_cons.
    destruct (decide (team_id t = T)).
    - rewrite fmap_cons, sumZ_cons, IH
        by (intros t' Ht'; by apply Hquiet, list_elem_of_further).
      rewrite (proj2 (Hquiet t (list_elem_of_here _ _))). done.
    - apply IH. intros t' Ht'. by apply Hquiet, list_elem_of_further. }
  assert ((λ e, bump e (windowCount env (config_of w) (entry_id e)))
            <$> leaderboard_of w = leaderboard_of w) as ->.
  { rewrite <- (list_fmap_id (leaderboard_of w)) at 2.
    apply Forall_fmap_ext_1, Forall_forall. intros e _.
    by rewrite Hzero, bump_0. }
  by apply sort_of_sorted.
Qed.

Lemma quiet_run_keeps_leaderboard_witness :
  NoDup (ids (leaderboard_of ranked_world)) ∧
  windowCommits sample_env <$> config_of ranked_world = [0] ∧
  leaderboard_of (main sample_env ranked_world).2 = leaderboard_of ranked_world.
Proof.
  assert (NoDup (ids (leaderboard_of ranked_world))) as Hnd.
  { apply (bool_decide_unpack _). vm_compute. exact I. }
  assert (StronglySorted (λ a b, total_commits b ≤ total_commits a)
            (leaderboard_of ranked_world)) as Hsorted.
  { repeat (constructor; [|repeat (constructor; [simpl; lia|]); constructor]).
    constructor. }
  assert (∀ t, t ∈ config_of ranked_world →
            team_id t ∈ ids (leaderboard_of ranked_world)
            ∧ windowCommits sample_env t = 0) as Hquiet.
  { intros t [->|Hin%elem_of_nil]%elem_of_cons; [|done].
    split; [|reflexivity]. apply list_elem_of_further, list_elem_of_here. }
  split; [exact Hnd|]. split; [reflexivity|].
  exact (quiet_run_keeps_leaderboard sample_env ranked_world Hnd Hsorted Hquiet).
Defined.

(** ** More about the history *)

Lemma sumZ_upper (l : list Z) (b : Z) :
  Forall (λ x, x ≤ b) l → sumZ l ≤ b * Z.of_nat (length l).
Proof.
  induction 1 as [|x l Hx _ IH]; [unfold sumZ; simpl; lia|].
  rewrite sumZ_cons. cbn [length]. lia.
Qed.

(** X11. In the history entry a run appends, [total] is not negative, and
    every key of [teams] is the identifier of a configured team and holds
    that team's window count, which is not negative. When no answer of the
    hosting API holds more than 100 commits (the page size the query asks
    for), a team's window count is at most 100 times the number of its
    repositories. *)
Theorem recorded_counts_are_window_counts env w :
  ∃ entry,
    last (history_of (main env w).2) = Some entry ∧
    0 ≤ total entry ∧
    (∀ T c, teams entry !! T = Some c →
       0 ≤ c ∧
       ∃ team, team ∈ config_of w ∧ team_id team = T ∧
               c = windowCommits env team) ∧
    ((∀ owner repo since until data,
        listCommits env owner repo since until = Normal data →
        (length data ≤ 100)%nat) →
     ∀ team, windowCommits env team ≤ 100 * Z.of_nat (length (team_repos team))).
Proof.
  exists (newHistoryEntry env w). rewrite history_after.
  split; [apply slice_last_50_push|].
  unfold newHistoryEntry. rewrite merged_unfold.
  destruct (mergeAll_history env (config_of w)
              (JS.Map_new ((λ t, (entry_id t, t)) <$> leaderboard_of w))
              (mkHistoryEntry (toLocaleTimeString env (Date_now env))
                 (Date_now env) ∅ 0)) as (_ & _ & Htotal & Hteams).
  simpl in Htotal, Hteams. split_and!.
  - rewrite Htotal. apply Z.add_nonneg_nonneg; [done|].
    apply sumZ_nonneg, Forall_fmap, Forall_forall. intros t _.
    apply windowCommits_nonneg.
  - intros T c. rewrite Hteams.
    destruct (last (filter _ (config_of w))) as [team|] eqn:L; [|done].
    intros [= <-]. split; [apply windowCommits_nonneg|].
    apply last_Some_elem_of, list_elem_of_filter in L as [Hid Hin].
    by exists team.
  - intros Hpage team. unfold windowCommits.
    rewrite <- (length_fmap (commitCount env)).
    apply sumZ_upper, Forall_fmap, Forall_forall. intros r _. simpl.
    unfold commitCount, query.
    destruct (listCommits env _ _ _ _) as [data|e] eqn:E; [|lia].
    apply Hpage in E. lia.
Qed.

Lemma recorded_counts_are_window_counts_witness :
  (∀ owner repo since until data,
     listCommits sample_env owner repo since until = Normal data →
     (length data ≤ 100)%nat) ∧
  windowCommits sample_env (mkTeam "a" "Team A" ["o/r1"] "#ff0000") ≤ 100 * 1.
Proof.
  assert (∀ owner repo since until data,
            listCommits sample_env owner repo since until = Normal data →
            (length data ≤ 100)%nat) as Hpage.
  { intros owner repo since until data. simpl. unfold sample_listCommits.
    case_decide; [|done]. intros [= <-]. simpl. lia. }
  split; [exact Hpage|].
  destruct (recorded_counts_are_window_counts sample_env sample_world)
    as (entry & _ & _ & _ & Hbound).
  exact (Hbound Hpage (mkTeam "a" "Team A" ["o/r1"] "#ff0000")).
Defined.

Lemma mergeAll_entry_indep env cfg : ∀ m m' h,
  (mergeAll env cfg (m, h)).2 = (mergeAll env cfg (m', h)).2.
Proof.
  induction cfg as [|t cfg IH]; intros m m' h; [done|].
  rewrite !mergeAll_cons.
  destruct (mergeTeam t (windowCommits env t) (m, h)) as [m1 h1] eqn:E1.
  destruct (mergeTeam t (windowCommits env t) (m', h)) as [m2 h2] eqn:E2.
  assert (h1 = h2) as -> by (injection E1; injection E2; congruence).
  apply IH.
Qed.

Lemma step_history w r :
  history_of (step w r) = JS.slice (-50) (history_of w ++ [entryOf r]).
Proof.
  unfold step. rewrite history_after. unfold newHistory, entryOf, newHistoryEntry.
  rewrite !merged_unfold.
  by rewrite (mergeAll_entry_indep _ _ _
                (JS.Map_new ((λ t, (entry_id t, t))
                   <$> leaderboard_of (configured r (mkWorld Missing Missing Missing []))))).
Qed.

Lemma slice_last_50_app {A} (l l' : list A) :
  JS.slice (-50) (JS.slice (-50) l ++ l') = JS.slice (-50) (l ++ l').
Proof.
  rewrite !slice_last_50, !length_app, length_drop.
  rewrite !drop_app, drop_drop, length_drop. f_equal.
  - f_equal. lia.
  - f_equal. lia.
Qed.

Lemma runs_history rs : ∀ w,
  rs ≠ [] →
  history_of (runs rs w) = JS.slice (-50) (history_of w ++ (entryOf <$> rs)).
Proof.
  induction rs as [|r rs IH]; intros w Hne; [done|].
  change (runs (r :: rs) w) with (runs rs (step w r)).
  destruct rs as [|r' rs].
  - apply step_history.
  - rewrite IH by done. rewrite step_history, slice_last_50_app.
    by rewrite <- app_assoc.
Qed.

(** X12. After one or more runs the history is the last 50 entries of the
    history the first run read followed by the entries of the runs, in
    order; once 50 runs have passed it holds the entries of the last 50
    runs and nothing of what was there before. *)
Theorem history_after_runs rs w :
  rs ≠ [] →
  history_of (runs rs w) = JS.slice (-50) (history_of w ++ (entryOf <$> rs)) ∧
  ((50 ≤ length rs)%nat →
   history_of (runs rs w) = JS.slice (-50) (entryOf <$> rs)).
Proof.
  intros Hne. rewrite runs_history by done. split; [done|].
  intros Hlen. rewrite !slice_last_50, length_app, length_fmap.
  rewrite drop_app, drop_ge by lia. simpl. f_equal. lia.
Qed.

Lemma history_after_runs_witness :
  sample_runs ≠ [] ∧
  timestamp <$> history_of (runs sample_runs full_world)
  = drop 3 (timestamp <$> full_history)
    ++ [1700000000000; 1700000000000; 1700000000000].
Proof.
  assert (sample_runs ≠ []) as Hne by done.
  split; [exact Hne|].
  rewrite (proj1 (history_after_runs sample_runs full_world Hne)).
  reflexivity.
Defined.

(** ** Repository paths *)







(** ** The dashboard: chart points *)

Lemma fold_insert_lookup (l : list (string * Z)) : ∀ (base : gmap string Dashboard.Cell) k,
  NoDup l.*1 →
  foldl (λ base kv, <[kv.1 := Dashboard.Num kv.2]> base) base l !! k
  = match (list_to_map l : gmap string Z) !! k with
    | Some count => Some (Dashboard.Num count)
    | None => base !! k
    end.
Proof.
  induction l as [|[k0 c0] l IH]; intros base k Hnd; [done|].
  rewrite fmap_cons in Hnd. apply NoDup_cons in Hnd as [Hout Hnd].
  cbn [foldl]. rewrite IH by done. rewrite list_to_map_cons. simpl.
  destruct (decide (k0 = k)) as [->|Hne].
  - rewrite lookup_insert_eq, (not_elem_of_list_to_map_1 _ _ Hout).
    by rewrite lookup_insert_eq.
  - rewrite !lookup_insert_ne by done. done.
Qed.

Lemma transform_lookup entry k :
  Dashboard.transform entry !! k
  = match teams entry !! k with
    | Some count => Some (Dashboard.Num count)
    | None =>
        if decide (k = "time") then Some (Dashboard.Str (time_label entry))
        else if decide (k = "total") then Some (Dashboard.Num (total entry))
        else None
    end.
Proof.
  unfold Dashboard.transform.
  rewrite fold_insert_lookup by apply NoDup_fst_map_to_list.
  rewrite list_to_map_to_list.
  destruct (teams entry !! k) as [count|]; [done|].
  destruct (decide (k = "time")) as [->|Htime].
  - by rewrite lookup_insert_ne, lookup_insert_eq.
  - destruct (decide (k = "total")) as [->|Htotal].
    + by rewrite lookup_insert_eq.
    + by rewrite !lookup_insert_ne, lookup_empty.
Qed.

(** X14. What a chart point holds under each key: a key of the entry's
    [teams] mapping holds that team's count; of the other keys, [time] holds
    the label of the entry and [total] its total, and no other key is
    present. So a team whose identifier is [time] or [total] takes the place
    of the label or of the total in the point. *)
Theorem chart_point_lookup entry k :
  Dashboard.transform entry !! k
  = match teams entry !! k with
    | Some count => Some (Dashboard.Num count)
    | None =>
        if decide (k = "time") then Some (Dashboard.Str (time_label entry))
        else if decide (k = "total") then Some (Dashboard.Num (total entry))
        else None
    end.
Proof. apply transform_lookup. Qed.

(** X15. When no team is called [time] or [total], a chart point loses
    nothing of its history entry: it holds the label under [time], the total
    under [total], and its other keys, read as numbers, are the [teams]
    mapping. *)
Theorem chart_point_round_trip entry :
  teams entry !! "time" = None → teams entry !! "total" = None →
  Dashboard.transform entry !! "time" = Some (Dashboard.Str (time_label entry)) ∧
  Dashboard.transform entry !! "total" = Some (Dashboard.Num (total entry)) ∧
  omap cell_number (delete "time" (delete "total" (Dashboard.transform entry)))
  = teams entry.
Proof.
  intros Htime Htotal. split_and!.
  - by rewrite transform_lookup, Htime.
  - by rewrite transform_lookup, Htotal.
  - apply map_eq. intros k. rewrite lookup_omap.
    destruct (decide (k = "time")) as [->|Hk1];
      [by rewrite lookup_delete_eq, Htime|].
    rewrite lookup_delete_ne by done.
    destruct (decide (k = "total")) as [->|Hk2];
      [by rewrite lookup_delete_eq, Htotal|].
    rewrite lookup_delete_ne, transform_lookup by done.
    destruct (teams entry !! k); [done|].
    by rewrite !decide_False.
Qed.

Lemma chart_point_round_trip_witness :
  omap cell_number
    (delete "time" (delete "total"
       (Dashboard.transform (mkHistoryEntry "10:15 AM" 0 {["a" := 5]} 5))))
  = {["a" := 5]}.
Proof.
  exact (proj2 (proj2 (chart_point_round_trip
                         (mkHistoryEntry "10:15 AM" 0 {["a" := 5]} 5)
                         eq_refl eq_refl))).
Defined.

Example team_called_total_hides_total :
  Dashboard.transform (mkHistoryEntry "10:15 AM" 0 {["total" := 2; "a" := 5]} 7)
    !! "total"
  = Some (Dashboard.Num 2).
Proof. by rewrite transform_lookup. Qed.

(** ** The dashboard: fetch cycles *)

(** X16. A cycle in which both artifacts arrive and parse replaces the
    display wholesale: the leaderboard is the fetched one, the chart has one
    point per fetched history entry, the time of the last update is the
    time of the cycle, the loading flag is cleared, nothing is logged, and
    nothing of what was displayed before remains. *)
Theorem successful_cycle_replaces_display cfg net b l h :
  leaderboard_result cfg net = Normal l →
  history_result cfg net = Normal h →
  Dashboard.fetchData cfg net b
  = (Normal (),
     Dashboard.mkBrowser
       (Dashboard.mkAppState l (Dashboard.transform <$> h) false
          (Some (Dashboard.toLocaleTimeString net (Dashboard.clock net))))
       (Dashboard.console b)
       (Dashboard.requests b
        ++ [Dashboard.LEADERBOARD_URL cfg; Dashboard.HISTORY_URL cfg])).
Proof.
  unfold leaderboard_result, history_result.
  unfold Dashboard.fetchData,
    try_finally, try_catch, bind, Dashboard.fetch, Dashboard.json,
    Dashboard.setLoading, Dashboard.setLeaderboard, Dashboard.setHistoryData,
    Dashboard.setLastUpdate, Dashboard.set_app, Dashboard.console_emit,
    modify, ret, throw; simpl.
  destruct (Dashboard.fetch_leaderboard net _) as [[l'|e]|e]; simpl; try done.
  intros [= ->].
  destruct (Dashboard.fetch_history net _) as [[h'|e]|e]; simpl; try done.
  intros [= ->]. by rewrite <- app_assoc.
Qed.

Lemma successful_cycle_replaces_display_witness :
  Dashboard.leaderboard
    (Dashboard.app (Dashboard.fetchData (Dashboard.load 1000 1000) (online 31000) shown).2)
  = [mkEntry "a" "Team A" 8 "#ff0000"] ∧
  length
    (Dashboard.historyData
       (Dashboard.app (Dashboard.fetchData (Dashboard.load 1000 1000) (online 31000) shown).2))
  = 1%nat.
Proof.
  rewrite (successful_cycle_replaces_display (Dashboard.load 1000 1000)
             (online 31000) shown _ _ eq_refl eq_refl).
  split; reflexivity.
Defined.

(** X17. Every fetch cycle, whatever the network does, completes normally
    and clears the loading flag. It requests the leaderboard first, and the
    history only when the leaderboard has arrived and parsed. *)
Theorem every_cycle_completes cfg net b :
  ∃ b',
    Dashboard.fetchData cfg net b = (Normal (), b') ∧
    Dashboard.loading (Dashboard.app b') = false ∧
    Dashboard.requests b'
    = Dashboard.requests b
      ++ Dashboard.LEADERBOARD_URL cfg
         :: match leaderboard_result cfg net with
            | Normal _ => [Dashboard.HISTORY_URL cfg]
            | Throw _ => []
            end.
Proof.
  destruct (fetchData_run cfg net b) as (b' & Hrun & Hreq & Hload).
  exists b'. split_and!; [done..|]. rewrite Hreq. unfold cycle_requests.
  by destruct (leaderboard_result cfg net).
Qed.

(** ** The dashboard: the legend *)

(** The legend has one item per displayed leaderboard entry, in ranking
    order, with the entry's identifier and name; no item has an empty
    colour: an entry's own colour is kept when it has one, and [#4c51bf]
    stands in when it is empty. *)
Lemma legend_follows_leaderboard lb :
  Dashboard.legend_id <$> Dashboard.teamConfigs lb = entry_id <$> lb ∧
  Dashboard.legend_name <$> Dashboard.teamConfigs lb = entry_name <$> lb ∧
  Forall (λ item, Dashboard.legend_color item ≠ "") (Dashboard.teamConfigs lb) ∧
  Dashboard.legend_color <$> Dashboard.teamConfigs lb
  = (λ e, if decide (entry_color e = "") then "#4c51bf" else entry_color e) <$> lb.
Proof.
  unfold Dashboard.teamConfigs. split_and!.
  - by rewrite <- list_fmap_compose.
  - by rewrite <- list_fmap_compose.
  - apply Forall_fmap, Forall_forall. intros e _. simpl.
    by destruct (decide (entry_color e = "")).
  - by rewrite <- list_fmap_compose.
Qed.

(** ** From a run to the chart *)

(** X18. The chart point of the entry a run appends: it has no value for a
    team the run did not configure (the line of such a team has a gap
    there), and, team identifiers being unique, it holds each configured
    team's window count under that team's identifier. *)
Theorem chart_point_of_run env w :
  ∃ entry,
    last (history_of (main env w).2) = Some entry ∧
    (∀ T, T ∉ team_id <$> config_of w → T ≠ "time" → T ≠ "total" →
       Dashboard.transform entry !! T = None) ∧
    (NoDup (team_id <$> config_of w) →
     ∀ team, team ∈ config_of w →
       Dashboard.transform entry !! team_id team
       = Some (Dashboard.Num (windowCommits env team))).
Proof.
  exists (newHistoryEntry env w). rewrite history_after.
  split; [apply slice_last_50_push|].
  unfold newHistoryEntry. rewrite merged_unfold.
  destruct (mergeAll_history env (config_of w)
              (JS.Map_new ((λ t, (entry_id t, t)) <$> leaderboard_of w))
              (mkHistoryEntry (toLocaleTimeString env (Date_now env))
                 (Date_now env) ∅ 0)) as (_ & _ & _ & Hteams).
  simpl in Hteams. split.
  - intros T Hout Htime Htotal.
    rewrite transform_lookup, Hteams, filter_absent_id by done. simpl.
    by rewrite lookup_empty, !decide_False.
  - intros Hnd team Hin.
    by rewrite transform_lookup, Hteams, filter_unique_id.
Qed.

Lemma chart_point_of_run_witness :
  NoDup (team_id <$> config_of old_world) ∧
  ∃ entry,
    last (history_of (main sample_env old_world).2) = Some entry ∧
    Dashboard.transform entry !! "z" = None ∧
    Dashboard.transform entry !! "a" = Some (Dashboard.Num 3).
Proof.
  assert (NoDup (team_id <$> config_of old_world)) as Hnd.
  { apply (bool_decide_unpack _). vm_compute. exact I. }
  split; [exact Hnd|].
  destruct (chart_point_of_run sample_env old_world)
    as (entry & Hlast & Hgap & Hcount).
  exists entry. split; [exact Hlast|]. split.
  - apply Hgap; [|done|done]. apply (bool_decide_unpack _). vm_compute. exact I.
  - exact (Hcount Hnd (mkTeam "a" "Team A" ["o/r1"] "#ff0000")
             (list_elem_of_here _ _)).
Defined.
